(** * invenio-github: the webhook receiver ([invenio_github/receivers.py])

    A shallow embedding of [GitHubReceiver] and of the module-level
    admission lock [state], followed by the properties of the intake
    layer: classification of events, duplicate detection, the mapping
    of failures to response codes and the life cycle of lock entries. *)

From stdpp Require Import gmap strings list fin_maps pretty.

Open Scope Z_scope.

(** ** Payloads: JSON documents as Python values *)

(** A decoded JSON value; numbers are the integers GitHub uses for its
    ids.  A Python [dict] is kept as an association list whose first
    binding of a key is the one a lookup returns. *)
#[local] Unset Elimination Schemes.
Inductive json : Type :=
| JNull
| JBool (b : bool)
| JNum (z : Z)
| JStr (s : string)
| JArr (items : list json)
| JObj (fields : list (string * json)).
#[local] Set Elimination Schemes.

Definition pydict := list (string * json).

Fixpoint dict_find (k : string) (d : pydict) : option json :=
  match d with
  | [] => None
  | (k', v) :: d' => if String.eqb k k' then Some v else dict_find k d'
  end.

(** Python truth value of a decoded JSON value. *)
Definition truthy (v : json) : bool :=
  match v with
  | JNull => false
  | JBool b => b
  | JNum z => negb (z =? 0)
  | JStr s => negb (String.eqb s "")
  | JArr l => match l with [] => false | _ => true end
  | JObj d => match d with [] => false | _ => true end
  end.

(** ** Exceptions *)

(** The instances of [Exception] that can travel through the receiver.
    [NoResultFound] is an [SQLAlchemyError] by inheritance; the five
    GitHub errors are unrelated siblings. *)
Inductive exn : Type :=
| KeyError (key : string)
| TypeError (msg : string)
| AttributeError (msg : string)
| ReleaseAlreadyReceivedError
| RepositoryDisabledError
| RepositoryAccessError
| InvalidSenderError
| RepositoryNotFoundError
| NoResultFound
| SQLAlchemyError (msg : string)
| OtherException (msg : string).

Definition is_SQLAlchemyError (e : exn) : bool :=
  match e with
  | NoResultFound | SQLAlchemyError _ => true
  | _ => false
  end.

(** Python type name of a value, as it shows in error messages. *)
Definition type_name (v : json) : string :=
  match v with
  | JNull => "NoneType"
  | JBool _ => "bool"
  | JNum _ => "int"
  | JStr _ => "str"
  | JArr _ => "list"
  | JObj _ => "dict"
  end.

(** [v[k]] for a string key [k]. *)
Definition subscript (v : json) (k : string) : exn + json :=
  match v with
  | JObj d =>
      match dict_find k d with
      | Some x => inr x
      | None => inl (KeyError k)
      end
  | JStr _ => inl (TypeError "string indices must be integers")
  | JArr _ => inl (TypeError "list indices must be integers or slices, not str")
  | _ => inl (TypeError ("'" +:+ type_name v +:+ "' object is not subscriptable"))
  end.

(** [v.get(k)]: only a dict has the method. *)
Definition method_get (v : json) (k : string) : exn + json :=
  match v with
  | JObj d => inr (default JNull (dict_find k d))
  | _ => inl (AttributeError
                ("'" +:+ type_name v +:+ "' object has no attribute 'get'"))
  end.

(** ** Dictionary keys *)

(** What a hashable JSON value is as a [dict] key: [True] and [1],
    [False] and [0] are the same key. *)
Inductive pykey : Type :=
| KNone
| KInt (z : Z)
| KStr (s : string).

#[global] Instance pykey_eq_dec : EqDecision pykey.
Proof. solve_decision. Defined.

Definition pykey_enc (k : pykey) : unit + (Z + string) :=
  match k with
  | KNone => inl tt
  | KInt z => inr (inl z)
  | KStr s => inr (inr s)
  end.

Definition pykey_dec (x : unit + (Z + string)) : pykey :=
  match x with
  | inl _ => KNone
  | inr (inl z) => KInt z
  | inr (inr s) => KStr s
  end.

#[global] Instance pykey_countable : Countable pykey.
Proof.
  refine (inj_countable' pykey_enc pykey_dec _).
  intros []; reflexivity.
Defined.

Definition py_hash (v : json) : exn + pykey :=
  match v with
  | JNull => inr KNone
  | JBool b => inr (KInt (if b then 1 else 0))
  | JNum z => inr (KInt z)
  | JStr s => inr (KStr s)
  | JArr _ => inl (TypeError "unhashable type: 'list'")
  | JObj _ => inl (TypeError "unhashable type: 'dict'")
  end.

(** ** The data model *)

Record Response : Type := mkResponse { status : Z; message : string }.

(** The webhook event: the payload and the response slot the receiver
    fills in.  [response = None] stands for a response that is falsy in
    Python (never assigned, or the empty dict). *)
Record Event : Type := mkEvent {
  payload : pydict;
  response : option Response;
  response_code : option Z
}.

(** Modelled from the spec: the status enumeration of
    [invenio_github.models.ReleaseStatus], which is not among the
    sources.  The receiver only ever uses [RECEIVED]. *)
Inductive ReleaseStatus : Type := RECEIVED | PROCESSING | PROCESSED | ERROR.

(** Modelled from the spec: [invenio_github.models.Repository], the
    registry row with its id, name and the [enabled] gate. *)
Record Repository : Type := mkRepository {
  github_id : json;
  name : json;
  enabled : bool
}.

(** Modelled from the spec: [invenio_github.models.Release], with the
    fields the receiver passes to its constructor. *)
Record Release : Type := mkRelease {
  release_id : json;
  tag : json;
  repository : Repository;
  event : Event;
  release_status : ReleaseStatus
}.

(** Calls into the collaborators and writes of the response slot, in
    the order the receiver performs them. *)
Inductive effect : Type :=
| QueryRelease (rid : json)
| GetRepository (repo_id repo_name : json)
| SessionAdd (r : Release)
| SessionCommit
| Delay (rid : json)
| ProcessRelease (r : Release)
| WriteResponse (code : Z) (msg : string).

(** Everything the receiver reads and mutates: the module-level dict
    [state], the durable Release rows, the pending objects of
    [db.session], the task queue of [process_release], and the log of
    effects. *)
Record World : Type := mkWorld {
  state : gmap pykey Event;
  rows : list Release;
  pending : list Release;
  queue : list json;
  log : list effect
}.

(** What the surroundings decide: the value of [GITHUB_ASYNC_MODE] in
    the configuration, if set; the answer of the registry to a lookup;
    the rows other processes commit while this one admits an event; a
    failure of the commit, of the enqueue or of the synchronous
    processor, if any, and what that processor does to the store; and
    the text of the exceptions whose classes are defined outside the
    receiver. *)
Record Env : Type := mkEnv {
  GITHUB_ASYNC_MODE : option json;
  Repository_get : json -> json -> exn + Repository;
  other_commits : list Release;
  commit_fault : option exn;
  delay_fault : option exn;
  release_api_process :
    Release -> list Release * list Release ->
    option exn * (list Release * list Release);
  str_GitHubError : exn -> string
}.

(** ** Computations: state that survives an exception *)

Definition M (A : Type) : Type := World -> (exn + A) * World.

#[global] Instance M_ret : MRet M := fun A x w => (inr x, w).

#[global] Instance M_bind : MBind M := fun A B f m w =>
  match m w with
  | (inl e, w') => (inl e, w')
  | (inr x, w') => f x w'
  end.

Definition raise {A} (e : exn) : M A := fun w => (inl e, w).

Definition lift {A} (r : exn + A) : M A := fun w => (r, w).

Definition gets {A} (f : World -> A) : M A := fun w => (inr (f w), w).

Definition modify (f : World -> World) : M unit := fun w => (inr tt, f w).

(** [try: m except Exception as e: h e] *)
Definition try_except {A} (m : M A) (h : exn -> M A) : M A := fun w =>
  match m w with
  | (inl e, w') => h e w'
  | (inr x, w') => (inr x, w')
  end.

Definition emit (x : effect) : M unit :=
  modify (fun w => mkWorld (state w) (rows w) (pending w) (queue w) (log w ++ [x])).

(** [r1[k]] after a first subscript that may itself have failed. *)
Definition then_subscript (r : exn + json) (k : string) : exn + json :=
  match r with
  | inl e => inl e
  | inr v => subscript v k
  end.

(** [event.payload[a][b]] *)
Definition payload_path (ev : Event) (a b : string) : exn + json :=
  then_subscript (subscript (JObj (payload ev)) a) b.

(** ** The collaborators *)

Definition json_key (v : json) : option pykey :=
  match py_hash v with
  | inr k => Some k
  | inl _ => None
  end.

(** The row carries the release id [rid]. *)
Definition same_id (rid : json) (r : Release) : bool :=
  match json_key rid with
  | Some k => bool_decide (json_key (release_id r) = Some k)
  | None => false
  end.

Definition set_state (f : gmap pykey Event -> gmap pykey Event) : M unit :=
  modify (fun w => mkWorld (f (state w)) (rows w) (pending w) (queue w) (log w)).

Definition set_store (rs ps : list Release) : World -> World :=
  fun w => mkWorld (state w) rs ps (queue w) (log w).

(** Modelled from the spec: [Release.query.filter_by(release_id=rid).first()]
    of the absent [models.py], the point lookup [findByReleaseId] in the
    durable store. *)
Definition Release_query_first (rid : json) : M (option Release) :=
  emit (QueryRelease rid);;
  gets (fun w => List.find (same_id rid) (rows w)).

(** Modelled from the spec: [Repository.get(repo_id, repo_name)] of the
    absent [models.py]; the registry itself is the environment's. *)
Definition Repository_get_call (env : Env) (repo_id repo_name : json)
  : M Repository :=
  emit (GetRepository repo_id repo_name);;
  lift (Repository_get env repo_id repo_name).

(** Modelled from the spec: [db.session.add], which stages a row
    without committing it. *)
Definition db_session_add (r : Release) : M unit :=
  emit (SessionAdd r);;
  modify (fun w => set_store (rows w) (pending w ++ [r]) w).

(** The store refuses a row whose release id it already holds. *)
Definition store_insert (rs : list Release) (r : Release) : list Release :=
  if existsb (same_id (release_id r)) rs then rs else rs ++ [r].

Fixpoint flush (rs ps : list Release) : option (list Release) :=
  match ps with
  | [] => Some rs
  | p :: ps' =>
      if existsb (same_id (release_id p)) rs then None
      else flush (rs ++ [p]) ps'
  end.

(** Modelled from the spec: [db.session.commit], which persists all
    staged rows or none, and fails on a uniqueness violation when
    another transaction got there first.  [other_commits] are the rows
    other processes committed since this admission queried the store. *)
Definition db_session_commit (env : Env) : M unit :=
  emit SessionCommit;;
  ((fun w =>
    let rows1 := foldl store_insert (rows w) (other_commits env) in
    match commit_fault env with
    | Some e => (inl e, set_store rows1 (pending w) w)
    | None =>
        match flush rows1 (pending w) with
        | None =>
            (inl (SQLAlchemyError "IntegrityError"),
             set_store rows1 (pending w) w)
        | Some rows2 => (inr tt, set_store rows2 [] w)
        end
    end) : M unit).

(** Modelled from the spec: [process_release.delay(rid)] of the absent
    [tasks.py], the enqueue onto the asynchronous task channel. *)
Definition process_release_delay (env : Env) (rid : json) : M unit :=
  emit (Delay rid);;
  match delay_fault env with
  | Some e => raise e
  | None =>
      modify (fun w =>
        mkWorld (state w) (rows w) (pending w) (queue w ++ [rid]) (log w))
  end.

(** Modelled from the spec:
    [current_github.release_api_class(release).process_release()], the
    synchronous processor, free to change the store and to fail. *)
Definition release_api_process_release (env : Env) (r : Release) : M unit :=
  emit (ProcessRelease r);;
  ((fun w =>
    let '(res, (rs, ps)) := release_api_process env r (rows w, pending w) in
    (match res with Some e => inl e | None => inr tt end, set_store rs ps w))
   : M unit).

(** [str(e)] *)
Definition str (env : Env) (e : exn) : string :=
  match e with
  | KeyError k => "'" +:+ k +:+ "'"
  | TypeError m | AttributeError m | SQLAlchemyError m | OtherException m => m
  | _ => str_GitHubError env e
  end.

Definition key_repr (k : pykey) : string :=
  match k with
  | KNone => "None"
  | KInt z => pretty z
  | KStr s => "'" +:+ s +:+ "'"
  end.

(** ** The receiver *)

(** [event.response_code = code; event.response = dict(message=msg, status=code)] *)
Definition write_response (code : Z) (msg : string) (ev : Event) : M Event :=
  emit (WriteResponse code msg);;
  mret (mkEvent (payload ev) (Some (mkResponse code msg)) (Some code)).

(** [action in ("published", "released", "created")] *)
Definition is_create_action (action : json) : bool :=
  match action with
  | JStr s => bool_decide (s ∈ ["published"; "released"; "created"])
  | _ => false
  end.

Definition _create_release (env : Env) (ev : Event) : M Release :=
  release_id ← lift (payload_path ev "release" "id");
  existing_release ← Release_query_first release_id;
  match existing_release with
  | Some _ => raise ReleaseAlreadyReceivedError
  | None =>
      repo_id ← lift (payload_path ev "repository" "id");
      repo_name ← lift (payload_path ev "repository" "name");
      repo ← try_except (Repository_get_call env repo_id repo_name)
               (fun e => match e with
                         | NoResultFound => raise RepositoryNotFoundError
                         | _ => raise e
                         end);
      if enabled repo then
        tag_name ← lift (payload_path ev "release" "tag_name");
        let release_object := mkRelease release_id tag_name repo ev RECEIVED in
        db_session_add release_object;;
        mret release_object
      else raise RepositoryDisabledError
  end.

(** [del state[k]] *)
Definition state_del (k : pykey) : M unit :=
  st ← gets state;
  match st !! k with
  | Some _ => set_state (delete k)
  | None => raise (KeyError (key_repr k))
  end.

(** The body of the [try] statement of [_handle_create_release]. *)
Definition admission (env : Env) (ev : Event) : M Event :=
  event_release_id ← lift (payload_path ev "release" "id");
  k ← lift (py_hash event_release_id);
  st ← gets state;
  if decide (is_Some (st !! k)) then raise ReleaseAlreadyReceivedError
  else
    set_state (insert k ev);;
    release ← _create_release env ev;
    let async_mode := default (JBool true) (GITHUB_ASYNC_MODE env) in
    (if truthy async_mode then
       db_session_commit env;;
       process_release_delay env (release_id release)
     else release_api_process_release env release);;
    state_del k;;
    mret ev.

(** The three [except] clauses of [_handle_create_release], first match
    first. *)
Definition admission_handler (env : Env) (ev : Event) (e : exn) : M Event :=
  match e with
  | ReleaseAlreadyReceivedError | RepositoryDisabledError
  | NoResultFound | SQLAlchemyError _ => write_response 409 (str env e) ev
  | RepositoryAccessError | InvalidSenderError => write_response 403 (str env e) ev
  | RepositoryNotFoundError => write_response 404 (str env e) ev
  | _ => raise e
  end.

Definition _handle_create_release (env : Env) (ev : Event) : M Event :=
  try_except (admission env ev) (admission_handler env ev).

Definition _handle_event (env : Env) (ev : Event) : M Event :=
  let action := default JNull (dict_find "action" (payload ev)) in
  is_draft_release ←
    lift (method_get (default (JObj []) (dict_find "release" (payload ev))) "draft");
  let is_create_release_event :=
    is_create_action action && negb (truthy is_draft_release) in
  if is_create_release_event then _handle_create_release env ev
  else mret ev.

(** [not event.response or event.response_code < 400] *)
Definition not_handled_yet (ev : Event) : exn + bool :=
  match response ev with
  | None => inr true
  | Some _ =>
      match response_code ev with
      | Some c => inr (c <? 400)
      | None =>
          inl (TypeError
                 "'<' not supported between instances of 'NoneType' and 'int'")
      end
  end.

Definition run (env : Env) (ev : Event) : M Event :=
  try_except (_handle_event env ev)
    (fun e =>
       unhandled ← lift (not_handled_yet ev);
       if unhandled : bool then write_response 500 (str env e) ev
       else mret ev).

(** ** Classification, in the words of the specification *)

Definition action_of (ev : Event) : json :=
  default JNull (dict_find "action" (payload ev)).

(** The extracted draft flag: [None] when the payload has no [release]
    entry or the release object has no [draft] key. *)
Definition draft_flag (ev : Event) : json :=
  match dict_find "release" (payload ev) with
  | Some (JObj d) => default JNull (dict_find "draft" d)
  | _ => JNull
  end.

Definition creation_action (ev : Event) : Prop :=
  action_of ev = JStr "published" \/ action_of ev = JStr "released"
  \/ action_of ev = JStr "created".

Definition creation_event (ev : Event) : Prop :=
  creation_action ev /\ truthy (draft_flag ev) = false.

(** The [release] entry of the payload is what the inbound contract
    says it is: absent (as in a ping) or an object. *)
Definition release_entry_ok (ev : Event) : Prop :=
  match dict_find "release" (payload ev) with
  | None | Some (JObj _) => True
  | Some _ => False
  end.

(** A response that is set carries a response code. *)
Definition Event_wf (ev : Event) : Prop :=
  response ev <> None -> response_code ev <> None.

Definition is_write (x : effect) : bool :=
  match x with
  | WriteResponse _ _ => true
  | _ => false
  end.

(** Number of responses written so far. *)
Definition writes (l : list effect) : nat :=
  length (filter (fun x => is_write x = true) l).

(** The response code of the taxonomy table for a classified error;
    [None] for an unclassified one. *)
Definition error_code (e : exn) : option Z :=
  match e with
  | ReleaseAlreadyReceivedError => Some 409
  | RepositoryDisabledError => Some 409
  | RepositoryAccessError | InvalidSenderError => Some 403
  | RepositoryNotFoundError => Some 404
  | _ => if is_SQLAlchemyError e then Some 409 else None
  end.

(** The event after a response was written onto it. *)
Definition responded (ev : Event) (code : Z) (msg : string) : Event :=
  mkEvent (payload ev) (Some (mkResponse code msg)) (Some code).

(** The world after one more effect was logged. *)
Definition logged (w : World) (x : effect) : World :=
  mkWorld (state w) (rows w) (pending w) (queue w) (log w ++ [x]).

(** No response claims the failure yet: the response is unset, or the
    code set before is below 400. *)
Definition unclaimed (ev : Event) : Prop :=
  response ev = None \/ exists c, response_code ev = Some c /\ c < 400.

(** Number of durable rows that carry the release id [rid]. *)
Definition count_id (rid : json) (rs : list Release) : nat :=
  length (List.filter (same_id rid) rs).

(** The uniqueness constraint of the store on release ids. *)
Definition store_unique (rs : list Release) : Prop :=
  forall rid, (count_id rid rs <= 1)%nat.

(** The three ways a duplicate shows: the release id is in the
    in-process lock; a row with the id is in the durable store; the try
    body raised an [SQLAlchemyError] and the last call it made was the
    commit. *)
Definition in_lock (w : World) (k : pykey) : Prop := is_Some (state w !! k).

Definition in_store (w : World) (rid : json) : Prop :=
  is_Some (List.find (same_id rid) (rows w)).

Definition commit_raises (env : Env) (ev : Event) (w : World) : Prop :=
  exists e w1 l,
    admission env ev w = (inl e, w1) /\ is_SQLAlchemyError e = true /\
    log w1 = log w ++ l /\ last l = Some SessionCommit.

(** The dispatch flag, [True] when the configuration does not set it. *)
Definition async_mode (env : Env) : bool :=
  truthy (default (JBool true) (GITHUB_ASYNC_MODE env)).

Definition is_delay (x : effect) : bool :=
  match x with
  | Delay _ => true
  | _ => false
  end.

(** No call of [process_release.delay] among the effects. *)
Definition no_delay (l : list effect) : Prop :=
  forallb (fun x => negb (is_delay x)) l = true.

(** Responses written onto the event by one call of [run]. *)
Definition responses_written (env : Env) (ev : Event) (w : World) : nat :=
  (writes (log (snd (run env ev w))) - writes (log w))%nat.

(** ** Sample deliveries *)

Definition repo_lib : Repository := mkRepository (JNum 7) (JStr "lib") true.

Definition repo_off : Repository := mkRepository (JNum 8) (JStr "off") false.

Definition registry (enabled_off : bool) (repo_id repo_name : json)
  : exn + Repository :=
  match repo_id with
  | JNum 7 => inr repo_lib
  | JNum 8 => inr (mkRepository (JNum 8) (JStr "off") enabled_off)
  | _ => inl NoResultFound
  end.

Definition sample_messages (e : exn) : string :=
  match e with
  | ReleaseAlreadyReceivedError => "The release has already been received."
  | RepositoryDisabledError => "The repository is disabled."
  | RepositoryNotFoundError => "The repository does not exist."
  | _ => "error"
  end.

Definition sync_noop (r : Release) (s : list Release * list Release)
  : option exn * (list Release * list Release) := (None, s).

(** Asynchronous by default, nobody else commits, nothing fails. *)
Definition env_async : Env :=
  mkEnv None (registry false) [] None None sync_noop sample_messages.

(** The same surroundings after repository 8 was enabled. *)
Definition env_enabled : Env :=
  mkEnv None (registry true) [] None None sync_noop sample_messages.

Definition release_payload (action : string) (rid : Z) (repo : Z) (nm : string)
  : pydict :=
  [("action", JStr action);
   ("release", JObj [("id", JNum rid); ("tag_name", JStr "v1.0");
                     ("draft", JBool false)]);
   ("repository", JObj [("id", JNum repo); ("name", JStr nm)])].

Definition ev_publish : Event :=
  mkEvent (release_payload "published" 42 7 "lib") None None.

Definition ev_disabled : Event :=
  mkEvent (release_payload "published" 43 8 "off") None None.

Definition ev_unknown : Event :=
  mkEvent (release_payload "released" 44 9 "gone") None None.

Definition ev_ping : Event :=
  mkEvent [("zen", JStr "Keep it logically awesome."); ("hook_id", JNum 1)]
          None None.

Definition ev_no_release : Event :=
  mkEvent [("action", JStr "created");
           ("repository", JObj [("id", JNum 7); ("name", JStr "lib")])]
          None None.

Definition w_empty : World := mkWorld ∅ [] [] [] [].

Definition row_42 : Release :=
  mkRelease (JNum 42) (JStr "v1.0") repo_lib ev_publish RECEIVED.

(** The store after release 42 was committed. *)
Definition w_stored : World := mkWorld ∅ [row_42] [] [] [].

(** Release 42 delivered again, now naming a repository the registry
    does not know. *)
Definition ev_moved : Event :=
  mkEvent (release_payload "published" 42 9 "gone") None None.

(** Another process commits release 42 while this one is admitting it. *)
Definition env_race : Env :=
  mkEnv None (registry false) [row_42] None None sync_noop sample_messages.

(** ** Tactics *)

Ltac mred :=
  unfold mbind, M_bind, mret, M_ret, lift, gets, modify, raise, try_except,
    emit, set_state in *; cbn [fst snd] in *.

Ltac unfold_admission :=
  unfold admission, _create_release, Release_query_first, Repository_get_call,
    db_session_add, db_session_commit, process_release_delay,
    release_api_process_release, state_del, set_store in *; mred.

(** Case analysis on the next test the computation in [H] branches on. *)
Ltac split_match H :=
  match type of H with
  | context [match ?x with _ => _ end] =>
      lazymatch x with
      | context [match _ with _ => _ end] => fail
      | _ => destruct x eqn:?; simpl in H
      end
  | context [if ?x then _ else _] =>
      lazymatch x with
      | context [match _ with _ => _ end] => fail
      | _ => destruct x eqn:?; simpl in H
      end
  end.

From Stdlib Require Import Sorting.Sorted.

(** ** More of the receiver *)

Definition is_commit_or_delay (x : effect) : bool :=
  match x with
  | SessionCommit | Delay _ => true
  | _ => false
  end.

(** Neither [db.session.commit] nor [process_release.delay] among the
    effects. *)
Definition no_commit_no_delay (l : list effect) : Prop :=
  forallb (fun x => negb (is_commit_or_delay x)) l = true.

(** The codes the receiver writes. *)
Definition receiver_code (c : Z) : Prop :=
  c = 403 \/ c = 404 \/ c = 409 \/ c = 500.

(** The registry refuses the caller. *)
Definition env_forbidden : Env :=
  mkEnv None (fun _ _ => inl RepositoryAccessError) [] None None sync_noop
        sample_messages.

(** Synchronous dispatch. *)
Definition env_sync : Env :=
  mkEnv (Some (JBool false)) (registry false) [] None None sync_noop
        sample_messages.

(** The broker is down: the enqueue raises. *)
Definition env_broker_down : Env :=
  mkEnv None (registry false) [] None (Some (OtherException "broker down"))
        sync_noop sample_messages.

Definition ev_no_tag : Event :=
  mkEvent [("action", JStr "published");
           ("release", JObj [("id", JNum 45)]);
           ("repository", JObj [("id", JNum 7); ("name", JStr "lib")])]
          None None.

Definition ev_list_id : Event :=
  mkEvent [("action", JStr "published");
           ("release", JObj [("id", JArr [JNum 1])]);
           ("repository", JObj [("id", JNum 7); ("name", JStr "lib")])]
          None None.

(** ** Utilities ([invenio_github/utils.py]) *)

Definition sum_bind {E A B} (r : E + A) (f : A -> E + B) : E + B :=
  match r with
  | inl e => inl e
  | inr x => f x
  end.

(** [a or b] *)
Definition py_or (a b : json) : json := if truthy a then a else b.

(** [dict(name=..., affiliation=...)] *)
Record Creator : Type := mkCreator { creator_name : json; affiliation : json }.

(** The attributes [get_owner] reads from github3's user object. *)
Record GitHubUser : Type := mkGitHubUser {
  user_name : json;
  login : json;
  company : json
}.

(** The [try] body of [get_owner]; [gh_user] is [gh.user], which
    raises, or returns a user, or returns [None] for an unknown login,
    on which the attribute lookup raises. *)
Definition get_owner_body (gh_user : string -> exn + option GitHubUser)
    (owner : string) : exn + list Creator :=
  sum_bind (gh_user owner) (fun u =>
    match u with
    | None => inl (AttributeError "'NoneType' object has no attribute 'name'")
    | Some u =>
        let name := py_or (user_name u) (login u) in
        let company := py_or (company u) (JStr "") in
        inr [mkCreator name company]
    end).

Definition get_owner (gh_user : string -> exn + option GitHubUser)
    (owner : string) : option (list Creator) :=
  match get_owner_body gh_user owner with
  | inl _ => None
  | inr creators => Some creators
  end.

(** The keys [get_contributors] reads from [x.as_dict()]. *)
Record Contributor : Type := mkContributor {
  contributions : Z;
  type : string;
  url : string
}.

(** The response of [requests.get]: its status and what [r.json()]
    gives. *)
Record HttpResponse : Type := mkHttpResponse {
  status_code : Z;
  json_body : exn + json
}.

(** The inner function of [get_contributors].  For [data] that is not
    a dict the membership test or the subscript that follows it raises
    [TypeError]. *)
Definition get_author (requests_get : string -> exn + HttpResponse)
    (contributor : Contributor) : exn + option Creator :=
  sum_bind (requests_get (url contributor)) (fun r =>
    if status_code r =? 200 then
      sum_bind (json_body r) (fun data =>
        match data with
        | JObj d =>
            sum_bind
              (match dict_find "name" d with
               | Some v => if truthy v then inr v else subscript data "login"
               | None => subscript data "login"
               end)
              (fun name =>
                 sum_bind (method_get data "company") (fun c =>
                   inr (Some (mkCreator name (py_or c (JStr ""))))))
        | _ => inl (TypeError "string indices must be integers")
        end)
    else inr None).

(** Where [sorted(..., reverse=True)] puts one more element: before the
    first one that has no more contributions than it. *)
Fixpoint insert_desc (x : Contributor) (l : list Contributor)
  : list Contributor :=
  match l with
  | [] => [x]
  | y :: l' =>
      if contributions x <? contributions y then y :: insert_desc x l'
      else x :: l
  end.

(** [sorted(contributors, key=lambda x: x.as_dict()['contributions'],
    reverse=True)]: most contributions first, equal ones in the order
    they came. *)
Definition sorted_reverse (l : list Contributor) : list Contributor :=
  foldr insert_desc [] l.

Definition is_user (x : Contributor) : bool := String.eqb (type x) "User".

(** [a] comes before [b] in the result of the sort. *)
Definition more_first (a b : Contributor) : Prop :=
  contributions b <= contributions a.

Definition with_contributions (n : Z) (c : Contributor) : bool :=
  contributions c =? n.

(** A list comprehension whose element expression may raise. *)
Fixpoint map_exn {A B} (f : A -> exn + B) (l : list A) : exn + list B :=
  match l with
  | [] => inr []
  | x :: l' =>
      sum_bind (f x) (fun y =>
        sum_bind (map_exn f l') (fun ys => inr (y :: ys)))
  end.

(** The contributors whose profile [get_contributors] requests. *)
Definition selected (contributors : list Contributor) : list Contributor :=
  List.filter is_user (take 30 (sorted_reverse contributors)).

(** [list_contributors] is [gh.repository_with_id(repo_id).contributors()]
    run through [list], with the [last_status] of the iterator. *)
Definition get_contributors
    (list_contributors : json -> exn + (list Contributor * Z))
    (requests_get : string -> exn + HttpResponse)
    (repo_id : json) : option (list Creator) :=
  match
    sum_bind (list_contributors repo_id) (fun '(contributors, last_status) =>
      if last_status =? 200 then
        sum_bind (map_exn (get_author requests_get) (selected contributors))
          (fun authors => inr (Some (omap id authors)))
      else inr None)
  with
  | inl _ => None
  | inr result => result
  end.

(** Exceptions of the metadata readers: [ValueError] with its
    subclasses (a failed decoding, a failed JSON parse), the error the
    readers raise themselves, and every other exception. *)
Inductive merr : Type :=
| ValueError (msg : string)
| CustomGitHubMetadataError (file : json)
| Propagated (e : exn).

Definition config_item (config : pydict) (key : string) : merr + json :=
  match subscript (JObj config) key with
  | inl e => inl (Propagated e)
  | inr v => inr v
  end.

(** [except ValueError: raise CustomGitHubMetadataError(file=config[key])] *)
Definition value_error_handler {A} (config : pydict) (key : string)
    (r : merr + A) : merr + A :=
  match r with
  | inl (ValueError _) =>
      sum_bind (config_item config key) (fun file =>
        inl (CustomGitHubMetadataError file))
  | _ => r
  end.

(** What the metadata readers take from outside: the configuration,
    [gh.repository(owner, repo_name)] with its [file_contents] method,
    the decoding of the content, the two parsers, the loader of the
    citation schema if one is configured, and [str]. *)
Record Outside : Type := mkOutside {
  config : pydict;
  gh_repository :
    string -> string ->
    merr + (json -> string -> merr + option (list Byte.byte));
  decode_utf8 : list Byte.byte -> merr + string;
  json_loads : string -> merr + json;
  yaml_safe_load : string -> merr + json;
  citation_schema : option (json -> merr + (json * pydict));
  py_str : json -> string
}.

Definition get_extra_metadata (o : Outside) (owner repo_name ref : string)
  : merr + json :=
  value_error_handler (config o) "GITHUB_METADATA_FILE"
    (sum_bind (gh_repository o owner repo_name) (fun file_contents =>
     sum_bind (config_item (config o) "GITHUB_METADATA_FILE") (fun path =>
     sum_bind (file_contents path ref) (fun content =>
       match content with
       | None => inr (JObj [])
       | Some decoded =>
           sum_bind (decode_utf8 o decoded) (json_loads o)
       end)))).

(** [d[k] = v] *)
Fixpoint dict_set (k : string) (v : json) (d : pydict) : pydict :=
  match d with
  | [] => [(k, v)]
  | (k', v') :: d' =>
      if String.eqb k k' then (k, v) :: d' else (k', v') :: dict_set k v d'
  end.

(** [for key in errors: errors[key] = str(errors[key])] *)
Definition stringify (o : Outside) (errors : pydict) : pydict :=
  map (fun kv => (fst kv, JStr (py_str o (snd kv)))) errors.

(** The update of [release.errors] at the end of
    [get_citation_metadata]; the attribute is [None] or a dict. *)
Definition record_citation_errors (release_errors : option pydict)
    (errors : pydict) : option pydict :=
  match release_errors, errors with
  | Some (b :: d), _ :: _ => Some (dict_set "CITATION.cff" (JObj errors) (b :: d))
  | _, _ :: _ => Some [("CITATION.cff", JObj errors)]
  | _, [] => release_errors
  end.

(** The result and [release.errors] after the call. *)
Definition get_citation_metadata (o : Outside) (owner repo_name ref : string)
    (release_errors : option pydict) : (merr + json) * option pydict :=
  let body : merr + (json * option pydict) :=
    sum_bind (gh_repository o owner repo_name) (fun file_contents =>
    sum_bind (config_item (config o) "GITHUB_CITATION_FILE") (fun path =>
    sum_bind (file_contents path ref) (fun content =>
      match content with
      | None => inr (JObj [], release_errors)
      | Some decoded =>
          sum_bind (decode_utf8 o decoded) (fun text =>
          sum_bind (yaml_safe_load o text) (fun data =>
          sum_bind
            (match citation_schema o with
             | Some load => load data
             | None =>
                 inl (Propagated
                        (TypeError "'NoneType' object is not callable"))
             end)
            (fun loaded =>
               let errors := stringify o (snd loaded) in
               inr (fst loaded, record_citation_errors release_errors errors))))
      end))) in
  match value_error_handler (config o) "GITHUB_CITATION_FILE" body with
  | inl e => (inl e, release_errors)
  | inr (data, errs) => (inr data, errs)
  end.

(** ** Sample inputs of the utilities *)

Definition sample_contributors : list Contributor :=
  [mkContributor 5 "User" "u/ada"; mkContributor 9 "Bot" "u/bot";
   mkContributor 9 "User" "u/cy"; mkContributor 2 "User" "u/dee"].

Definition sample_listing (repo_id : json) : exn + (list Contributor * Z) :=
  inr (sample_contributors, 200).

Definition sample_requests_get (u : string) : exn + HttpResponse :=
  if String.eqb u "u/ada" then
    inr (mkHttpResponse 200
           (inr (JObj [("name", JStr "Ada"); ("login", JStr "ada");
                       ("company", JNull)])))
  else if String.eqb u "u/cy" then
    inr (mkHttpResponse 200
           (inr (JObj [("name", JNull); ("login", JStr "cy");
                       ("company", JStr "CERN")])))
  else if String.eqb u "u/dee" then
    inr (mkHttpResponse 404 (inr JNull))
  else inl (OtherException "connection refused").

(** Thirty bots ahead of one user. *)
Definition bots_then_user : list Contributor :=
  replicate 30 (mkContributor 9 "Bot" "u/bot")
  ++ [mkContributor 1 "User" "u/ada"].

Definition sample_file_contents (path : json) (ref : string)
  : merr + option (list Byte.byte) :=
  inr (Some [Byte.x7b]).

(** A repository whose metadata file is not JSON and whose citation
    file misses its title. *)
Definition sample_outside : Outside :=
  mkOutside
    [("GITHUB_METADATA_FILE", JStr ".zenodo.json");
     ("GITHUB_CITATION_FILE", JStr "CITATION.cff")]
    (fun _ _ => inr sample_file_contents)
    (fun _ => inr "{")
    (fun _ => inl (ValueError "Expecting property name"))
    (fun _ => inr (JObj [("cff-version", JStr "1.2.0")]))
    (Some (fun d =>
             inr (d, [("title", JArr [JStr "Missing data for required field."])])))
    (fun _ => "['Missing data for required field.']").

(** ** Stepping through computations *)

Lemma bind_inr {A B} (m : M A) (f : A -> M B) w x w' :
  m w = (inr x, w') -> (m ≫= f) w = f x w'.
Proof. intros H. unfold mbind, M_bind. now rewrite H. Qed.

Lemma bind_inl {A B} (m : M A) (f : A -> M B) w e w' :
  m w = (inl e, w') -> (m ≫= f) w = (inl e, w').
Proof. intros H. unfold mbind, M_bind. now rewrite H. Qed.

Lemma is_create_action_spec (a : json) :
  is_create_action a = true <->
  a = JStr "published" \/ a = JStr "released" \/ a = JStr "created".
Proof.
  destruct a as [| | |s| |]; simpl;
    try (split; [discriminate | intros [H|[H|H]]; discriminate]).
  rewrite bool_decide_eq_true. rewrite !elem_of_cons, elem_of_nil.
  split.
  - intros [->|[->|[->|[]]]]; auto.
  - intros [H|[H|H]]; inversion H; auto.
Qed.

Lemma method_get_release (ev : Event) :
  release_entry_ok ev ->
  method_get (default (JObj []) (dict_find "release" (payload ev))) "draft"
  = inr (draft_flag ev).
Proof.
  unfold release_entry_ok, draft_flag.
  destruct (dict_find "release" (payload ev)) as [[]|]; simpl; tauto.
Qed.

(** The classification in [_handle_event] is the specification's: with
    a well-formed [release] entry, a creation event enters
    [_handle_create_release] and any other event is returned untouched. *)
Lemma _handle_event_creation env ev w :
  release_entry_ok ev -> creation_event ev ->
  _handle_event env ev w = _handle_create_release env ev w.
Proof.
  intros Hok [Ha Hd]. unfold _handle_event.
  rewrite (method_get_release ev Hok). mred.
  apply is_create_action_spec in Ha. fold (action_of ev).
  now rewrite Ha, Hd.
Qed.

Lemma _handle_event_discard env ev w :
  release_entry_ok ev -> ~ creation_event ev ->
  _handle_event env ev w = (inr ev, w).
Proof.
  intros Hok Hn. unfold _handle_event.
  rewrite (method_get_release ev Hok). mred. fold (action_of ev).
  destruct (is_create_action (action_of ev)) eqn:Ha; [|reflexivity].
  destruct (truthy (draft_flag ev)) eqn:Hd; [reflexivity|].
  exfalso. apply Hn. split; [now apply is_create_action_spec | assumption].
Qed.

(** ** The handlers *)


Lemma admission_handler_spec env ev e w :
  admission_handler env ev e w =
  match error_code e with
  | Some c => (inr (responded ev c (str env e)), logged w (WriteResponse c (str env e)))
  | None => (inl e, w)
  end.
Proof. destruct e; reflexivity. Qed.

Lemma _handle_create_release_spec env ev w :
  _handle_create_release env ev w =
  match admission env ev w with
  | (inr ev', w') => (inr ev', w')
  | (inl e, w') =>
      match error_code e with
      | Some c =>
          (inr (responded ev c (str env e)),
           logged w' (WriteResponse c (str env e)))
      | None => (inl e, w')
      end
  end.
Proof.
  unfold _handle_create_release, try_except.
  destruct (admission env ev w) as [[e|ev'] w']; [|reflexivity].
  apply admission_handler_spec.
Qed.

Lemma not_handled_yet_wf ev :
  Event_wf ev -> exists b, not_handled_yet ev = inr b /\ (b = true <-> unclaimed ev).
Proof.
  unfold Event_wf, not_handled_yet, unclaimed. intros Hwf.
  destruct (response ev) as [r|] eqn:Hr.
  - destruct (response_code ev) as [c|] eqn:Hc.
    + exists (c <? 400). split; [reflexivity|]. rewrite Z.ltb_lt. split.
      * intros Hlt. right. eauto.
      * intros [H|(c' & Heq & Hlt)]; [discriminate|]. now inversion Heq; subst.
    + exfalso. now apply Hwf.
  - exists true. split; [reflexivity|]. tauto.
Qed.

Lemma run_spec env ev w :
  run env ev w =
  match _handle_event env ev w with
  | (inr ev', w') => (inr ev', w')
  | (inl e, w') =>
      match not_handled_yet ev with
      | inl e' => (inl e', w')
      | inr true =>
          (inr (responded ev 500 (str env e)),
           logged w' (WriteResponse 500 (str env e)))
      | inr false => (inr ev, w')
      end
  end.
Proof.
  unfold run, try_except.
  destruct (_handle_event env ev w) as [[e|ev'] w']; [|reflexivity].
  mred. destruct (not_handled_yet ev) as [e'|[]]; reflexivity.
Qed.

(** ** What an admission does to the world *)

Lemma writes_nil : writes [] = 0%nat.
Proof. reflexivity. Qed.

Lemma writes_app l1 l2 : writes (l1 ++ l2) = (writes l1 + writes l2)%nat.
Proof. unfold writes. now rewrite filter_app, length_app. Qed.

Lemma log_grows_ne (w w' : World) l :
  log w' = log w ++ l -> l <> [] -> w' <> w.
Proof.
  intros Hl Hne ->. apply Hne.
  apply (f_equal length) in Hl. rewrite length_app in Hl.
  destruct l; [reflexivity | simpl in Hl; lia].
Qed.

(** The [try] body never writes a response.  When it returns, the event
    is the one passed in and the lock is as it was found.  When it
    raises, either nothing happened yet, or the entry it inserted is
    still in the lock. *)
Lemma admission_inv env ev w r w' :
  admission env ev w = (r, w') ->
  exists l, log w' = log w ++ l /\ writes l = 0%nat /\
    match r with
    | inr ev' => ev' = ev /\ l <> [] /\ state w' = state w
    | inl e =>
        (l = [] /\ w' = w) \/
        (l <> [] /\ exists rid k,
            payload_path ev "release" "id" = inr rid /\ py_hash rid = inr k /\
            state w !! k = None /\ state w' = <[k:=ev]> (state w))
    end.
Proof.
  intros H. unfold_admission.
  repeat split_match H.
  all: inversion H; subst; clear H; cbn [log state rows pending queue].
  all: try (exists []; rewrite app_nil_r; repeat split; try reflexivity;
            left; split; reflexivity).
  all: rewrite <- ?app_assoc; eexists; split; [reflexivity|]; split; [reflexivity|].
  all: try (right; split; [discriminate|]; do 2 eexists;
            repeat split; try eassumption; try reflexivity;
            now apply eq_None_not_Some).
  all: split; [reflexivity|]; split; [discriminate|].
  all: apply delete_insert_id; now apply eq_None_not_Some.
Qed.

(** Entering [_handle_create_release] always shows: it raises, or it
    logs an effect. *)
Lemma _handle_create_release_mark env ev w :
  _handle_create_release env ev w <> (inr ev, w).
Proof.
  rewrite _handle_create_release_spec.
  destruct (admission env ev w) as [[e|ev'] w'] eqn:Hadm;
    apply admission_inv in Hadm as (l & Hl & _ & Hr).
  - destruct (error_code e) as [c|]; [|discriminate].
    intros Heq. inversion Heq as [[Hev Hw]].
    apply (f_equal log) in Hw. unfold logged in Hw. cbn [log] in Hw.
    rewrite Hl, <- app_assoc in Hw.
    apply (f_equal length) in Hw. rewrite !length_app in Hw. simpl in Hw. lia.
  - destruct Hr as (_ & Hne & _). intros Heq. inversion Heq; subst.
    now apply (log_grows_ne w w l).
Qed.

(** ** Classification of events *)

(** C3. With the [release] entry of the payload absent or an object, an
    event enters the release-creation path exactly when its action is
    "published", "released" or "created" and its draft flag is falsy.
    Every other event is discarded: [run] hands back the event and the
    world as they were, so no response is written, no lock entry is
    inserted and no Release row is created or staged. *)
Theorem creation_path_iff env ev w :
  release_entry_ok ev ->
  (creation_event ev ->
     _handle_event env ev w = _handle_create_release env ev w /\
     _handle_event env ev w <> (inr ev, w)) /\
  (~ creation_event ev ->
     _handle_event env ev w = (inr ev, w) /\
     run env ev w = (inr ev, w)).
Proof.
  intros Hok. split.
  - intros Hc. rewrite (_handle_event_creation env ev w Hok Hc).
    split; [reflexivity | apply _handle_create_release_mark].
  - intros Hn. pose proof (_handle_event_discard env ev w Hok Hn) as Hd.
    split; [assumption|]. now rewrite run_spec, Hd.
Qed.

(** C10. An event whose action is "published", "released" or "created"
    and whose payload has no [release] entry, or a release object
    without a [draft] key, yields [None] as the extracted draft flag, is
    a creation event, and enters the release-creation path. *)
Theorem absent_draft_is_creation env ev w :
  creation_action ev ->
  (dict_find "release" (payload ev) = None \/
   exists d, dict_find "release" (payload ev) = Some (JObj d) /\
             dict_find "draft" d = None) ->
  method_get (default (JObj []) (dict_find "release" (payload ev))) "draft"
    = inr JNull /\
  creation_event ev /\
  _handle_event env ev w = _handle_create_release env ev w.
Proof.
  intros Ha Hrel.
  assert (Hok : release_entry_ok ev).
  { unfold release_entry_ok. destruct Hrel as [->|(d & -> & _)]; exact I. }
  assert (Hd : draft_flag ev = JNull).
  { unfold draft_flag. destruct Hrel as [->|(d & -> & ->)]; reflexivity. }
  assert (Hc : creation_event ev).
  { split; [assumption|]. now rewrite Hd. }
  split; [|split].
  - now rewrite (method_get_release ev Hok), Hd.
  - assumption.
  - now apply _handle_event_creation.
Qed.

(** ** The top-level handler *)

(** C4. [run] returns normally for every event whose response, when
    set, carries a code.  When handling raises, [run] writes code 500
    with the exception's message exactly when the response is unset or
    the code set before is below 400, and otherwise leaves the event as
    it is; when handling returns, with or without a response written by
    a classified handler, [run] hands that result back unchanged. *)
Theorem run_never_propagates env ev w :
  Event_wf ev ->
  exists ev' w', run env ev w = (inr ev', w') /\
    match _handle_event env ev w with
    | (inr ev1, w1) => ev' = ev1 /\ w' = w1
    | (inl e, w1) =>
        (unclaimed ev ->
           ev' = responded ev 500 (str env e) /\
           w' = logged w1 (WriteResponse 500 (str env e))) /\
        (~ unclaimed ev -> ev' = ev /\ w' = w1)
    end.
Proof.
  intros Hwf. rewrite run_spec.
  destruct (not_handled_yet_wf ev Hwf) as (b & Hb & Hiff).
  destruct (_handle_event env ev w) as [[e|ev1] w1].
  - rewrite Hb. destruct b.
    + do 2 eexists. split; [reflexivity|]. split; [auto|].
      intros Hn. exfalso. apply Hn. now apply Hiff.
    + do 2 eexists. split; [reflexivity|]. split; [|auto].
      intros Hu. apply Hiff in Hu. discriminate.
  - do 2 eexists. split; [reflexivity|]. auto.
Qed.

(** Events stay well formed: whatever [run] returns has a code whenever
    it has a response. *)
Lemma run_preserves_wf env ev w ev' w' :
  Event_wf ev -> run env ev w = (inr ev', w') -> Event_wf ev'.
Proof.
  intros Hwf. rewrite run_spec. unfold _handle_event. mred.
  destruct (method_get _ _) as [e|d].
  - destruct (not_handled_yet ev) as [|[]]; intros H; inversion H; subst;
      [discriminate | assumption].
  - destruct (_ && _).
    + rewrite _handle_create_release_spec.
      destruct (admission env ev w) as [[e|ev1] w1] eqn:Hadm.
      * destruct (error_code e).
        -- intros H; inversion H; subst. discriminate.
        -- destruct (not_handled_yet ev) as [|[]]; intros H; inversion H; subst;
             [discriminate | assumption].
      * apply admission_inv in Hadm as (l & _ & _ & -> & _).
        intros H; inversion H; now subst.
    + intros H; inversion H; now subst.
Qed.

(** ** Admission of a creation event *)

Lemma payload_path_release_ok ev b x :
  payload_path ev "release" b = inr x -> release_entry_ok ev.
Proof.
  unfold payload_path, then_subscript, release_entry_ok. simpl.
  destruct (dict_find "release" (payload ev)) as [[]|]; simpl;
    try discriminate; auto.
Qed.

(** What [run] makes of the outcome of the [try] body, for a creation
    event. *)
Lemma run_creation_spec env ev w :
  release_entry_ok ev -> creation_event ev ->
  run env ev w =
  match admission env ev w with
  | (inr ev', w') => (inr ev', w')
  | (inl e, w') =>
      match error_code e with
      | Some c =>
          (inr (responded ev c (str env e)),
           logged w' (WriteResponse c (str env e)))
      | None =>
          match not_handled_yet ev with
          | inl e' => (inl e', w')
          | inr true =>
              (inr (responded ev 500 (str env e)),
               logged w' (WriteResponse 500 (str env e)))
          | inr false => (inr ev, w')
          end
      end
  end.
Proof.
  intros Hok Hc.
  rewrite run_spec, (_handle_event_creation env ev w Hok Hc),
    _handle_create_release_spec.
  destruct (admission env ev w) as [[e|ev'] w']; [|reflexivity].
  destruct (error_code e); reflexivity.
Qed.

(** C7. A creation event whose repository is found in the registry but
    is disabled ends with response code 409: through the lock, through
    the record found in the store, or through [RepositoryDisabledError].
    No Release row is created or staged, and nothing is enqueued. *)
Theorem disabled_repository_409 env ev w rid k repo_id repo_name repo :
  creation_event ev ->
  payload_path ev "release" "id" = inr rid ->
  py_hash rid = inr k ->
  payload_path ev "repository" "id" = inr repo_id ->
  payload_path ev "repository" "name" = inr repo_name ->
  Repository_get env repo_id repo_name = inr repo ->
  enabled repo = false ->
  exists msg w',
    run env ev w = (inr (responded ev 409 msg), w') /\
    rows w' = rows w /\ pending w' = pending w /\ queue w' = queue w.
Proof.
  intros Hc Hrid Hk Hid Hname Hget Hen.
  rewrite (run_creation_spec env ev w (payload_path_release_ok ev _ _ Hrid) Hc).
  unfold_admission. rewrite Hrid. simpl. rewrite Hk. simpl.
  destruct (decide (is_Some (state w !! k))) as [Hin|Hout]; simpl.
  { do 2 eexists. split; [reflexivity|]. auto. }
  destruct (List.find (same_id rid) (rows w)) as [r|]; simpl.
  { do 2 eexists. split; [reflexivity|]. auto. }
  rewrite Hid, Hname. simpl. rewrite Hget. simpl. rewrite Hen. simpl.
  do 2 eexists. split; [reflexivity|]. auto.
Qed.

(** C8, as the code has it.  A creation event that passes both
    duplicate checks and whose repository id and name match no record
    of the registry ([Repository.get] raises [NoResultFound]) ends with
    response code 404; no Release row is created or staged, and nothing
    is enqueued. *)
Theorem unknown_repository_404 env ev w rid k repo_id repo_name :
  creation_event ev ->
  payload_path ev "release" "id" = inr rid ->
  py_hash rid = inr k ->
  state w !! k = None ->
  List.find (same_id rid) (rows w) = None ->
  payload_path ev "repository" "id" = inr repo_id ->
  payload_path ev "repository" "name" = inr repo_name ->
  Repository_get env repo_id repo_name = inl NoResultFound ->
  exists w',
    run env ev w =
      (inr (responded ev 404 (str env RepositoryNotFoundError)), w') /\
    rows w' = rows w /\ pending w' = pending w /\ queue w' = queue w.
Proof.
  intros Hc Hrid Hk Hlock Hfind Hid Hname Hget.
  rewrite (run_creation_spec env ev w (payload_path_release_ok ev _ _ Hrid) Hc).
  unfold_admission. rewrite Hrid. simpl. rewrite Hk. simpl.
  destruct (decide (is_Some (state w !! k))) as [Hin|Hout]; simpl.
  { rewrite Hlock in Hin. now destruct Hin. }
  rewrite Hfind. simpl.
  rewrite Hid, Hname. simpl. rewrite Hget. simpl.
  eexists. split; [reflexivity|]. auto.
Qed.

(** C9. A creation event whose payload has no [release] entry, or
    whose release object has no [id], makes the lookup of the release
    id raise [KeyError] with the world untouched: no lock entry was
    inserted.  With no response claimed before, [run] writes code 500
    with the message of the [KeyError]; the lock, the durable rows and
    the session stay as they were. *)
Theorem missing_release_id_500 env ev w :
  creation_event ev ->
  (dict_find "release" (payload ev) = None \/
   exists d, dict_find "release" (payload ev) = Some (JObj d) /\
             dict_find "id" d = None) ->
  unclaimed ev ->
  exists key w',
    (key = "release" \/ key = "id") /\
    _handle_create_release env ev w = (inl (KeyError key), w) /\
    run env ev w = (inr (responded ev 500 (str env (KeyError key))), w') /\
    response_code (responded ev 500 (str env (KeyError key))) = Some 500 /\
    w' = logged w (WriteResponse 500 (str env (KeyError key))) /\
    state w' = state w /\ rows w' = rows w /\ pending w' = pending w /\
    (state w = ∅ -> state w' = ∅).
Proof.
  intros Hc Hrel Hun.
  assert (Hok : release_entry_ok ev).
  { unfold release_entry_ok. destruct Hrel as [->|(d & -> & _)]; exact I. }
  assert (Hnh : not_handled_yet ev = inr true).
  { unfold not_handled_yet. destruct Hun as [->|(c & Hcode & Hlt)]; [reflexivity|].
    rewrite Hcode. destruct (response ev); [|reflexivity].
    f_equal. now apply Z.ltb_lt. }
  assert (Hpath : exists key, (key = "release" \/ key = "id") /\
                    payload_path ev "release" "id" = inl (KeyError key)).
  { unfold payload_path. simpl.
    destruct Hrel as [->|(d & -> & Hid)]; simpl.
    - exists "release". auto.
    - rewrite Hid. exists "id". auto. }
  destruct Hpath as (key & Hkey & Hpath).
  assert (Hadm : admission env ev w = (inl (KeyError key), w)).
  { unfold admission. mred. now rewrite Hpath. }
  exists key, (logged w (WriteResponse 500 (str env (KeyError key)))).
  split; [assumption|]. split.
  { now rewrite _handle_create_release_spec, Hadm. }
  split.
  { now rewrite (run_creation_spec env ev w Hok Hc), Hadm, Hnh. }
  repeat split; auto.
Qed.

(** ** The store *)

Lemma flush_app rs ps rs' : flush rs ps = Some rs' -> rs' = rs ++ ps.
Proof.
  revert rs. induction ps as [|p ps IH]; intros rs; simpl.
  - intros [= <-]. now rewrite app_nil_r.
  - destruct (existsb _ rs); [discriminate|].
    intros H. apply IH in H. now rewrite <- app_assoc in H.
Qed.

Lemma count_id_app rid rs1 rs2 :
  count_id rid (rs1 ++ rs2) = (count_id rid rs1 + count_id rid rs2)%nat.
Proof. unfold count_id. now rewrite List.filter_app, length_app. Qed.

Lemma count_id_pos rid rs :
  (0 < count_id rid rs)%nat -> exists r, In r rs /\ same_id rid r = true.
Proof.
  unfold count_id. induction rs as [|r rs IH]; simpl; [lia|].
  destruct (same_id rid r) eqn:Hs.
  - intros _. exists r. auto.
  - intros H. destruct (IH H) as (r' & Hin & Hr'). exists r'. auto.
Qed.

Lemma same_id_trans rid p r :
  same_id rid p = true -> same_id rid r = true ->
  same_id (release_id p) r = true.
Proof.
  unfold same_id. destruct (json_key rid) as [k|]; [|discriminate].
  rewrite !bool_decide_eq_true. intros -> ->. now apply bool_decide_eq_true.
Qed.

Lemma unique_snoc rs p :
  store_unique rs -> existsb (same_id (release_id p)) rs = false ->
  store_unique (rs ++ [p]).
Proof.
  intros Hu Hex rid. rewrite count_id_app. specialize (Hu rid).
  unfold count_id at 2. simpl. destruct (same_id rid p) eqn:Hp; simpl; [|lia].
  destruct (count_id rid rs) as [|n] eqn:Hc; [lia|]. exfalso.
  destruct (count_id_pos rid rs) as (r & Hin & Hr); [lia|].
  assert (Hex' : existsb (same_id (release_id p)) rs = true).
  { apply existsb_exists. exists r. split; [assumption|].
    now apply (same_id_trans rid). }
  congruence.
Qed.

Lemma store_insert_unique rs r :
  store_unique rs -> store_unique (store_insert rs r).
Proof.
  intros Hu. unfold store_insert.
  destruct (existsb _ rs) eqn:Hex; [assumption | now apply unique_snoc].
Qed.

Lemma foldl_store_insert_unique others rs :
  store_unique rs -> store_unique (foldl store_insert rs others).
Proof.
  revert rs. induction others as [|o others IH]; intros rs Hu; simpl;
    [assumption|]. apply IH. now apply store_insert_unique.
Qed.

Lemma flush_unique rs ps rs' :
  store_unique rs -> flush rs ps = Some rs' -> store_unique rs'.
Proof.
  revert rs. induction ps as [|p ps IH]; intros rs Hu; simpl.
  - now intros [= <-].
  - destruct (existsb _ rs) eqn:Hex; [discriminate|].
    apply IH. now apply unique_snoc.
Qed.

Lemma find_count rid rs r :
  List.find (same_id rid) rs = Some r -> (0 < count_id rid rs)%nat.
Proof.
  unfold count_id. induction rs as [|x rs IH]; simpl; [discriminate|].
  destruct (same_id rid x); simpl; [lia | assumption].
Qed.

(** ** Dispatch in asynchronous mode *)

(** The try body in asynchronous mode: the only call of
    [process_release.delay] comes right after the staging and the
    commit of the row whose id it passes, and that row is durable. *)
Lemma admission_async env ev w r w' :
  async_mode env = true ->
  admission env ev w = (r, w') ->
  exists l, log w' = log w ++ l /\
    match r with
    | inr _ =>
        exists l0 rel,
          l = l0 ++ [SessionAdd rel; SessionCommit; Delay (release_id rel)] /\
          no_delay l0 /\ In rel (rows w') /\
          queue w' = queue w ++ [release_id rel]
    | inl _ =>
        queue w' = queue w /\
        (no_delay l \/
         exists l0 rel,
           l = l0 ++ [SessionAdd rel; SessionCommit; Delay (release_id rel)] /\
           no_delay l0 /\ In rel (rows w'))
    end.
Proof.
  unfold async_mode. intros Hasync H. unfold_admission.
  repeat split_match H.
  all: try congruence.
  all: try match goal with
       | Hc : <[_:=_]> _ !! _ = None |- _ =>
           rewrite lookup_insert_eq in Hc; discriminate
       end.
  all: inversion H; subst; clear H; cbn [log state rows pending queue].
  all: try (exists []; rewrite app_nil_r; split; [reflexivity|];
            split; [reflexivity | left; reflexivity]).
  all: rewrite <- ?app_assoc; eexists; (split; [reflexivity|]).
  all: try (split; [reflexivity | left; reflexivity]).
  all: try match goal with
       | Hf : flush _ _ = Some _ |- _ => apply flush_app in Hf; subst
       end.
  all: try (split; [reflexivity|]; right).
  all: match goal with
       | |- context [SessionAdd ?r] =>
           refine (ex_intro _ (cons _ (cons _ nil)) (ex_intro _ r _))
       end; (split; [simpl; reflexivity|]); (split; [reflexivity|]).
  all: try split; try reflexivity.
  all: rewrite !in_app_iff; simpl; auto.
Qed.

(** Whatever the event, [run] leaves the world as it was, or logs one
    response, or does what the try body did and logs at most one
    response after it. *)
Lemma run_cases env ev w r w' :
  run env ev w = (r, w') ->
  (w' = w \/ exists c m, w' = logged w (WriteResponse c m)) \/
  exists ra w1,
    admission env ev w = (ra, w1) /\
    (w' = w1 \/ exists c m, w' = logged w1 (WriteResponse c m)).
Proof.
  rewrite run_spec. unfold _handle_event. mred.
  destruct (method_get _ _) as [e|d].
  - intros H. left.
    destruct (not_handled_yet ev) as [|[]]; inversion H; subst; eauto.
  - destruct (_ && _).
    + rewrite _handle_create_release_spec.
      destruct (admission env ev w) as [[e|ev1] w1] eqn:Hadm; intros H; right;
        exists (fst (admission env ev w)), w1; rewrite Hadm; simpl;
        (split; [reflexivity|]).
      * destruct (error_code e).
        -- inversion H; subst; eauto.
        -- destruct (not_handled_yet ev) as [|[]]; inversion H; subst; eauto.
      * inversion H; subst; eauto.
    + intros H. inversion H; subst. auto.
Qed.

Lemma no_delay_app l1 l2 : no_delay l1 -> no_delay l2 -> no_delay (l1 ++ l2).
Proof. unfold no_delay. rewrite forallb_app. now intros -> ->. Qed.

(** C6. In asynchronous mode (the flag set to a truthy value, or not
    set at all) the new effects of [run] contain no call of
    [process_release.delay], or exactly one, which comes right after
    the staging and the commit of the row whose release id it passes,
    and that row is among the durable rows.  A creation event whose
    admission succeeds is of the second kind, and its id is enqueued. *)
Theorem commit_before_enqueue env ev w r w' :
  async_mode env = true ->
  run env ev w = (r, w') ->
  exists l, log w' = log w ++ l /\
    ((no_delay l /\ queue w' = queue w) \/
     exists l0 rel l2,
       l = l0 ++ [SessionAdd rel; SessionCommit; Delay (release_id rel)] ++ l2 /\
       no_delay l0 /\ no_delay l2 /\ In rel (rows w') /\
       (queue w' = queue w \/ queue w' = queue w ++ [release_id rel])) /\
    (release_entry_ok ev -> creation_event ev ->
     forall ev1 w1, admission env ev w = (inr ev1, w1) ->
       exists l0 rel,
         l = l0 ++ [SessionAdd rel; SessionCommit; Delay (release_id rel)] /\
         In rel (rows w') /\ queue w' = queue w ++ [release_id rel]).
Proof.
  intros Hasync Hrun.
  assert (Hsucc : release_entry_ok ev -> creation_event ev ->
            forall ev1 w1, admission env ev w = (inr ev1, w1) -> w' = w1).
  { intros Hok Hc ev1 w1 Hadm.
    rewrite (run_creation_spec env ev w Hok Hc), Hadm in Hrun.
    now inversion Hrun. }
  destruct (run_cases env ev w r w' Hrun)
    as [[->|(c & m & ->)]|(ra & w1 & Hadm & Hw')].
  - exists []. rewrite app_nil_r. split; [reflexivity|].
    split; [left; split; reflexivity|].
    intros Hok Hc ev1 w1 Hadm.
    pose proof (Hsucc Hok Hc ev1 w1 Hadm) as <-.
    apply admission_inv in Hadm as (l & Hl & _ & _ & Hne & _).
    exfalso. now apply (log_grows_ne w w l).
  - exists [WriteResponse c m]. split; [reflexivity|].
    split; [left; split; reflexivity|].
    intros Hok Hc ev1 w1 Hadm.
    pose proof (Hsucc Hok Hc ev1 w1 Hadm) as <-.
    pose proof (admission_inv _ _ _ _ _ Hadm) as (l & Hl & Hwr & _).
    exfalso. unfold logged in Hl. cbn [log] in Hl.
    apply app_inv_head in Hl. subst l. discriminate.
  - pose proof (admission_async env ev w ra w1 Hasync Hadm) as (l & Hl & Hra).
    assert (Hshape :
      (no_delay l /\ queue w1 = queue w) \/
      exists l0 rel,
        l = l0 ++ [SessionAdd rel; SessionCommit; Delay (release_id rel)] /\
        no_delay l0 /\ In rel (rows w1) /\
        (queue w1 = queue w \/ queue w1 = queue w ++ [release_id rel])).
    { destruct ra as [e|ev1].
      - destruct Hra as (Hq & [Hnd|(l0 & rel & -> & Hnd & Hin)]); [auto|].
        right. exists l0, rel. auto.
      - destruct Hra as (l0 & rel & -> & Hnd & Hin & Hq).
        right. exists l0, rel. auto. }
    destruct Hw' as [->|(c & m & ->)].
    + exists l. split; [assumption|]. split.
      * destruct Hshape as [?|(l0 & rel & -> & Hnd & Hin & Hq)]; [auto|].
        right. exists l0, rel, []. rewrite app_nil_r. repeat split; auto.
      * intros Hok Hc ev1 w2 Hadm2. rewrite Hadm in Hadm2.
        inversion Hadm2; subst.
        destruct Hra as (l0 & rel & -> & _ & Hin & Hq). eauto.
    + exists (l ++ [WriteResponse c m]). unfold logged. cbn [log rows queue].
      split; [now rewrite Hl, app_assoc|]. split.
      * destruct Hshape as [[Hnd Hq]|(l0 & rel & -> & Hnd & Hin & Hq)].
        -- left. split; [|assumption]. now apply no_delay_app.
        -- right. exists l0, rel, [WriteResponse c m].
           rewrite <- !app_assoc. repeat split; auto.
      * intros Hok Hc ev1 w2 Hadm2. rewrite Hadm in Hadm2.
        inversion Hadm2; subst.
        pose proof (Hsucc Hok Hc _ _ Hadm) as Heq.
        apply (f_equal log) in Heq. unfold logged in Heq. cbn [log] in Heq.
        exfalso. apply (f_equal length) in Heq.
        rewrite length_app in Heq. simpl in Heq. lia.
Qed.

(** ** Duplicates *)

Lemma app_self_nil {A} (l0 l : list A) : l0 = l0 ++ l -> l = [].
Proof.
  intros H. apply (f_equal length) in H. rewrite length_app in H.
  destruct l; [reflexivity | simpl in H; lia].
Qed.

Lemma is_SQLAlchemyError_409 e :
  is_SQLAlchemyError e = true -> error_code e = Some 409.
Proof. destruct e; simpl; congruence. Qed.

(** When the last call the try body made before raising is the commit,
    neither duplicate check had fired, and the durable rows are those
    of before together with what other processes committed: the row of
    this event is not among them. *)
Lemma admission_commit_raise env ev w e w1 l :
  admission env ev w = (inl e, w1) ->
  log w1 = log w ++ l -> last l = Some SessionCommit ->
  rows w1 = foldl store_insert (rows w) (other_commits env) /\
  queue w1 = queue w /\
  exists rid k,
    payload_path ev "release" "id" = inr rid /\ py_hash rid = inr k /\
    state w !! k = None /\ List.find (same_id rid) (rows w) = None.
Proof.
  intros H Hl Hlast. unfold_admission.
  repeat split_match H.
  all: inversion H; subst; clear H; cbn [log state rows pending queue] in *.
  all: try (apply app_self_nil in Hl; subst l; discriminate).
  all: rewrite <- ?app_assoc in Hl; apply app_inv_head in Hl; subst l.
  all: try discriminate.
  all: split; [reflexivity|]; split; [reflexivity|]; do 2 eexists;
    repeat split; try eassumption; now apply eq_None_not_Some.
Qed.

(** C2. For a creation event with release id [rid], each of the three
    duplicate triggers ends with response code 409 written onto the
    event, and the durable store keeps at most one row per release id.
    When the id is in the lock, the response is the only effect: no
    store query is issued.  When a row with the id is in the store, the
    durable rows and the session are unchanged and exactly one row
    carries the id.  When the commit raises an [SQLAlchemyError], the
    durable rows gain nothing from this event. *)
Theorem duplicate_409 env ev w rid k :
  creation_event ev ->
  payload_path ev "release" "id" = inr rid ->
  py_hash rid = inr k ->
  store_unique (rows w) ->
  in_lock w k \/ in_store w rid \/ commit_raises env ev w ->
  exists msg w',
    run env ev w = (inr (responded ev 409 msg), w') /\
    store_unique (rows w') /\
    (in_lock w k -> w' = logged w (WriteResponse 409 msg)) /\
    (in_store w rid ->
       rows w' = rows w /\ pending w' = pending w /\
       count_id rid (rows w') = 1%nat) /\
    (commit_raises env ev w ->
       rows w' = foldl store_insert (rows w) (other_commits env)).
Proof.
  intros Hc Hrid Hk Hu Htrig.
  rewrite (run_creation_spec env ev w (payload_path_release_ok ev _ _ Hrid) Hc).
  assert (Hone : in_store w rid -> count_id rid (rows w) = 1%nat).
  { intros [r Hr]. apply find_count in Hr. specialize (Hu rid). lia. }
  destruct (decide (is_Some (state w !! k))) as [Hin|Hout] eqn:Hdec.
  - (* the id is in the lock *)
    assert (Hadm : admission env ev w = (inl ReleaseAlreadyReceivedError, w)).
    { unfold_admission. rewrite Hrid. simpl. rewrite Hk. simpl.
      now rewrite Hdec. }
    rewrite Hadm. simpl. do 2 eexists. split; [reflexivity|].
    cbn [logged rows pending]. repeat split; auto.
    intros (e & w1 & l & Hadm' & _ & Hl & Hlast).
    rewrite Hadm in Hadm'. inversion Hadm'; subst.
    apply app_self_nil in Hl. subst l. discriminate.
  - destruct (List.find (same_id rid) (rows w)) as [r|] eqn:Hfind.
    + (* a row with the id is in the store *)
      assert (Hadm : exists w1, admission env ev w =
                       (inl ReleaseAlreadyReceivedError, w1) /\
                     rows w1 = rows w /\ pending w1 = pending w).
      { unfold_admission. rewrite Hrid. simpl. rewrite Hk. simpl.
        rewrite Hdec. simpl. rewrite Hfind. simpl. eauto. }
      destruct Hadm as (w1 & Hadm & Hrows & Hpend). rewrite Hadm. simpl.
      do 2 eexists. split; [reflexivity|]. cbn [logged rows pending].
      rewrite Hrows, Hpend. repeat split; auto.
      * intros Hlock. contradiction.
      * intros (e & w2 & l & Hadm' & Hsql & _).
        rewrite Hadm in Hadm'. inversion Hadm'; subst. discriminate.
    + (* neither check fires: the commit raised *)
      destruct Htrig as [Hlock|[[r Hr]|Hraise]];
        [contradiction | unfold in_store in *; congruence |].
      pose proof Hraise as (e & w1 & l & Hadm & Hsql & Hl & Hlast).
      destruct (admission_commit_raise env ev w e w1 l Hadm Hl Hlast)
        as (Hrows & _).
      rewrite Hadm, (is_SQLAlchemyError_409 e Hsql).
      do 2 eexists. split; [reflexivity|]. cbn [logged rows pending].
      rewrite Hrows. repeat split; auto.
      * now apply foldl_store_insert_unique.
      * intros Hlock. contradiction.
      * match goal with H : in_store _ _ |- _ => destruct H as [r Hr] end.
        congruence.
      * match goal with H : in_store _ _ |- _ => destruct H as [r Hr] end.
        congruence.
      * match goal with H : in_store _ _ |- _ => destruct H as [r Hr] end.
        congruence.
Qed.

(** ** Responses written per event *)

Lemma writes_logged w c m :
  writes (log (logged w (WriteResponse c m))) = S (writes (log w)).
Proof.
  unfold logged. cbn [log]. rewrite writes_app.
  change (writes [WriteResponse c m]) with 1%nat. lia.
Qed.

Lemma unclaimed_not_handled ev : unclaimed ev -> not_handled_yet ev = inr true.
Proof.
  unfold not_handled_yet. intros [->|(c & Hcode & Hlt)]; [reflexivity|].
  rewrite Hcode. destruct (response ev); [|reflexivity].
  f_equal. now apply Z.ltb_lt.
Qed.

(** C5, as the code has it.  One call of [run] writes at most one
    response onto the event.  It writes none for a discarded event and
    none for a creation event whose admission succeeds: the event comes
    back as it was passed in.  It writes exactly one when the admission
    fails with a classified error, or with an unclassified one while no
    response was claimed before. *)
Theorem at_most_one_response env ev w r w' :
  run env ev w = (r, w') ->
  (writes (log w') = writes (log w) \/ writes (log w') = S (writes (log w))) /\
  (release_entry_ok ev -> ~ creation_event ev -> r = inr ev /\ w' = w) /\
  (release_entry_ok ev -> creation_event ev ->
     match admission env ev w with
     | (inr _, w1) =>
         r = inr ev /\ w' = w1 /\ writes (log w') = writes (log w)
     | (inl e, w1) =>
         is_Some (error_code e) \/ unclaimed ev ->
         writes (log w') = S (writes (log w))
     end).
Proof.
  intros Hrun. split; [|split].
  - destruct (run_cases env ev w r w' Hrun)
      as [[->|(c & m & ->)]|(ra & w1 & Hadm & Hw')].
    + now left.
    + right. apply writes_logged.
    + apply admission_inv in Hadm as (l & Hl & Hwr & _).
      assert (Hsame : writes (log w1) = writes (log w)).
      { rewrite Hl, writes_app, Hwr. lia. }
      destruct Hw' as [->|(c & m & ->)].
      * now left.
      * right. now rewrite writes_logged, Hsame.
  - intros Hok Hn.
    rewrite run_spec, (_handle_event_discard env ev w Hok Hn) in Hrun.
    now inversion Hrun.
  - intros Hok Hc. rewrite (run_creation_spec env ev w Hok Hc) in Hrun.
    destruct (admission env ev w) as [[e|ev1] w1] eqn:Hadm;
      apply admission_inv in Hadm as (l & Hl & Hwr & Hr);
      assert (Hsame : writes (log w1) = writes (log w))
        by (rewrite Hl, writes_app, Hwr; lia).
    + intros [[c Hcode]|Hun].
      * rewrite Hcode in Hrun. inversion Hrun; subst.
        now rewrite writes_logged, Hsame.
      * destruct (error_code e) as [c|].
        -- inversion Hrun; subst. now rewrite writes_logged, Hsame.
        -- rewrite (unclaimed_not_handled ev Hun) in Hrun.
           inversion Hrun; subst. now rewrite writes_logged, Hsame.
    + destruct Hr as (-> & _). inversion Hrun; subst. auto.
Qed.

(** ** The life cycle of a lock entry *)

(** On success the entry is deleted again: the lock is as it was
    found, without the release id. *)
Lemma lock_released_on_success env ev w ev1 w1 rid k :
  admission env ev w = (inr ev1, w1) ->
  payload_path ev "release" "id" = inr rid -> py_hash rid = inr k ->
  state w1 = state w /\ state w1 !! k = None.
Proof.
  intros Hadm Hrid Hk.
  pose proof (admission_inv _ _ _ _ _ Hadm) as (l & _ & _ & _ & _ & Hst).
  split; [assumption|]. rewrite Hst.
  revert Hadm. unfold_admission. rewrite Hrid. simpl. rewrite Hk. simpl.
  destruct (decide (is_Some (state w !! k))) as [Hin|Hout]; [discriminate|].
  intros _. now apply eq_None_not_Some.
Qed.

(** On a failure raised after the insertion no exit path deletes the
    entry: it is still in the lock when the try body is left, and the
    handlers do not touch the lock. *)
Lemma lock_kept_on_failure env ev w e w1 :
  admission env ev w = (inl e, w1) -> w1 <> w ->
  exists rid k,
    payload_path ev "release" "id" = inr rid /\ py_hash rid = inr k /\
    state w1 !! k = Some ev /\
    state (snd (admission_handler env ev e w1)) !! k = Some ev.
Proof.
  intros Hadm Hne.
  apply admission_inv in Hadm
    as (l & _ & _ & [[_ Heq]|(_ & rid & k & Hrid & Hk & _ & Hst)]);
    [contradiction|].
  exists rid, k. repeat split; try assumption.
  - rewrite Hst. apply lookup_insert_eq.
  - rewrite admission_handler_spec.
    destruct (error_code e); cbn [snd logged state]; rewrite Hst;
      apply lookup_insert_eq.
Qed.

(** C1, on the code.  The delivery for release 43 of a disabled
    repository is answered with 409, and the entry for 43 is still in
    the lock after [run] has returned.  Once the repository is enabled,
    the next delivery of the same release is rejected from the lock. *)
Theorem lock_entry_survives_failure :
  fst (run env_async ev_disabled w_empty)
    = inr (responded ev_disabled 409 "The repository is disabled.") /\
  state (snd (run env_async ev_disabled w_empty)) !! KInt 43 = Some ev_disabled /\
  fst (run env_enabled ev_disabled (snd (run env_async ev_disabled w_empty)))
    = inr (responded ev_disabled 409 "The release has already been received.").
Proof. vm_compute. repeat split. Qed.

(** ** Outside the inbound contract *)

(** The flag is asynchronous when the configuration does not set it. *)
Lemma async_mode_default env :
  GITHUB_ASYNC_MODE env = None -> async_mode env = true.
Proof. unfold async_mode. now intros ->. Qed.

(** A [release] entry that is not an object makes the classification
    itself raise: [.get] is looked up on a value without that method,
    and [run] answers 500 when no response was claimed before. *)
Lemma release_not_an_object env ev w v :
  dict_find "release" (payload ev) = Some v ->
  (forall d, v <> JObj d) ->
  unclaimed ev ->
  exists msg,
    _handle_event env ev w = (inl (AttributeError msg), w) /\
    run env ev w =
      (inr (responded ev 500 msg), logged w (WriteResponse 500 msg)).
Proof.
  intros Hrel Hv Hun.
  assert (Hget : exists msg,
            method_get (default (JObj []) (dict_find "release" (payload ev)))
              "draft" = inl (AttributeError msg)).
  { rewrite Hrel. simpl. destruct v; simpl; eauto. now destruct (Hv fields). }
  destruct Hget as (msg & Hget). exists msg.
  assert (Hev : _handle_event env ev w = (inl (AttributeError msg), w)).
  { unfold _handle_event. mred. now rewrite Hget. }
  split; [assumption|].
  now rewrite run_spec, Hev, (unclaimed_not_handled ev Hun).
Qed.

(** A response that is set without a code makes the comparison in the
    handler of [run] raise, and that [TypeError] leaves [run]. *)
Lemma response_without_code env ev w e w1 r :
  response ev = Some r -> response_code ev = None ->
  _handle_event env ev w = (inl e, w1) ->
  exists msg, run env ev w = (inl (TypeError msg), w1).
Proof.
  intros Hr Hc Hev. rewrite run_spec, Hev. unfold not_handled_yet.
  rewrite Hr, Hc. eauto.
Qed.

(** ** A delivery and its re-delivery *)

(** Release 42 is admitted, committed and enqueued, and the lock is
    empty again; the sender's retry is answered with 409 and the store
    still holds the one row. *)
Example redelivery_409 :
  let w1 := snd (run env_async ev_publish w_empty) in
  let w2 := snd (run env_async ev_publish w1) in
  fst (run env_async ev_publish w_empty) = inr ev_publish /\
  rows w1 = [row_42] /\ queue w1 = [JNum 42] /\ state w1 = ∅ /\
  fst (run env_async ev_publish w1)
    = inr (responded ev_publish 409 "The release has already been received.") /\
  rows w2 = [row_42] /\ queue w2 = [JNum 42] /\
  count_id (JNum 42) (rows w2) = 1%nat.
Proof. vm_compute. repeat split. Qed.

(** ** The theorems at sample deliveries *)

Lemma ev_publish_creation : creation_event ev_publish.
Proof. split; [left; reflexivity | reflexivity]. Defined.

Lemma ev_disabled_creation : creation_event ev_disabled.
Proof. split; [left; reflexivity | reflexivity]. Defined.

Lemma ev_unknown_creation : creation_event ev_unknown.
Proof. split; [right; left; reflexivity | reflexivity]. Defined.

Lemma ev_no_release_creation : creation_event ev_no_release.
Proof. split; [right; right; reflexivity | reflexivity]. Defined.

Lemma ev_ping_not_creation : ~ creation_event ev_ping.
Proof. intros [[H|[H|H]] _]; discriminate H. Defined.

Lemma store_unique_nil : store_unique [].
Proof. intros rid. unfold count_id. simpl. lia. Defined.

(** A ping is discarded. *)
Lemma creation_path_iff_witness :
  release_entry_ok ev_ping /\
  run env_async ev_ping w_empty = (inr ev_ping, w_empty).
Proof.
  split; [exact I|].
  apply (creation_path_iff env_async ev_ping w_empty I).
  exact ev_ping_not_creation.
Defined.

(** A "created" event without [release] enters the creation path. *)
Lemma absent_draft_is_creation_witness :
  creation_action ev_no_release /\
  dict_find "release" (payload ev_no_release) = None /\
  _handle_event env_async ev_no_release w_empty
    = _handle_create_release env_async ev_no_release w_empty.
Proof.
  split; [right; right; reflexivity|]. split; [reflexivity|].
  apply (absent_draft_is_creation env_async ev_no_release w_empty).
  - right; right; reflexivity.
  - left; reflexivity.
Defined.

(** [run] returns for the event whose handling raises [KeyError]. *)
Lemma run_never_propagates_witness :
  Event_wf ev_no_release /\
  exists ev' w', run env_async ev_no_release w_empty = (inr ev', w').
Proof.
  assert (Hwf : Event_wf ev_no_release).
  { intros H. exfalso. apply H. reflexivity. }
  split; [exact Hwf|].
  destruct (run_never_propagates env_async ev_no_release w_empty Hwf)
    as (ev' & w' & Hrun & _).
  exists ev', w'. exact Hrun.
Defined.

(** The delivery for the disabled repository 8. *)
Lemma disabled_repository_409_witness :
  creation_event ev_disabled /\
  enabled repo_off = false /\
  exists msg w',
    run env_async ev_disabled w_empty = (inr (responded ev_disabled 409 msg), w') /\
    rows w' = rows w_empty /\ pending w' = pending w_empty /\
    queue w' = queue w_empty.
Proof.
  split; [exact ev_disabled_creation|]. split; [reflexivity|].
  apply (disabled_repository_409 env_async ev_disabled w_empty
           (JNum 43) (KInt 43) (JNum 8) (JStr "off") repo_off);
    solve [exact ev_disabled_creation | reflexivity].
Defined.

(** The delivery for repository 9, which the registry does not know. *)
Lemma unknown_repository_404_witness :
  creation_event ev_unknown /\
  Repository_get env_async (JNum 9) (JStr "gone") = inl NoResultFound /\
  exists w',
    run env_async ev_unknown w_empty =
      (inr (responded ev_unknown 404 (str env_async RepositoryNotFoundError)), w') /\
    rows w' = rows w_empty /\ pending w' = pending w_empty /\
    queue w' = queue w_empty.
Proof.
  split; [exact ev_unknown_creation|]. split; [reflexivity|].
  apply (unknown_repository_404 env_async ev_unknown w_empty
           (JNum 44) (KInt 44) (JNum 9) (JStr "gone"));
    solve [exact ev_unknown_creation | reflexivity | vm_compute; reflexivity].
Defined.

(** The delivery without a [release] entry. *)
Lemma missing_release_id_500_witness :
  creation_event ev_no_release /\
  dict_find "release" (payload ev_no_release) = None /\
  unclaimed ev_no_release /\
  exists key w',
    run env_async ev_no_release w_empty
      = (inr (responded ev_no_release 500 (str env_async (KeyError key))), w') /\
    state w' = state w_empty.
Proof.
  split; [exact ev_no_release_creation|]. split; [reflexivity|].
  split; [left; reflexivity|].
  destruct (missing_release_id_500 env_async ev_no_release w_empty
              ev_no_release_creation (or_introl eq_refl) (or_introl eq_refl))
    as (key & w' & _ & _ & Hrun & _ & _ & Hst & _).
  exists key, w'. split; [exact Hrun | exact Hst].
Defined.

(** Release 42 when another process commits it first. *)
Lemma commit_raises_race : commit_raises env_race ev_publish w_empty.
Proof.
  exists (SQLAlchemyError "IntegrityError"),
    (snd (admission env_race ev_publish w_empty)),
    (log (snd (admission env_race ev_publish w_empty))).
  repeat split; vm_compute; reflexivity.
Defined.

Lemma duplicate_409_witness :
  creation_event ev_publish /\
  store_unique (rows w_empty) /\
  commit_raises env_race ev_publish w_empty /\
  exists msg w',
    run env_race ev_publish w_empty = (inr (responded ev_publish 409 msg), w') /\
    store_unique (rows w') /\
    rows w' = foldl store_insert (rows w_empty) (other_commits env_race).
Proof.
  split; [exact ev_publish_creation|]. split; [exact store_unique_nil|].
  split; [exact commit_raises_race|].
  destruct (duplicate_409 env_race ev_publish w_empty (JNum 42) (KInt 42)
              ev_publish_creation eq_refl eq_refl store_unique_nil
              (or_intror (or_intror commit_raises_race)))
    as (msg & w' & Hrun & Hu & _ & _ & Hrows).
  exists msg, w'. split; [exact Hrun|]. split; [exact Hu|].
  exact (Hrows commit_raises_race).
Defined.

(** Release 42 admitted in asynchronous mode. *)
Lemma commit_before_enqueue_witness :
  async_mode env_async = true /\
  exists l,
    log (snd (run env_async ev_publish w_empty)) = log w_empty ++ l /\
    exists l0 rel,
      l = l0 ++ [SessionAdd rel; SessionCommit; Delay (release_id rel)] /\
      In rel (rows (snd (run env_async ev_publish w_empty))) /\
      queue (snd (run env_async ev_publish w_empty))
        = queue w_empty ++ [release_id rel].
Proof.
  split; [reflexivity|].
  destruct (commit_before_enqueue env_async ev_publish w_empty
              (fst (run env_async ev_publish w_empty))
              (snd (run env_async ev_publish w_empty))
              eq_refl (surjective_pairing _))
    as (l & Hl & _ & Hsucc).
  exists l. split; [exact Hl|].
  apply (Hsucc I ev_publish_creation ev_publish
           (snd (admission env_async ev_publish w_empty))).
  vm_compute. reflexivity.
Defined.

(** C8 without the duplicate checks fails: release 42 is in the store,
    its re-delivery names a repository the registry does not know, and
    the answer is 409 from the store hit, which comes first. *)
Lemma unknown_repository_duplicate_409 :
  creation_event ev_moved /\
  Repository_get env_async (JNum 9) (JStr "gone") = inl NoResultFound /\
  fst (run env_async ev_moved w_stored)
    = inr (responded ev_moved 409 "The release has already been received.") /\
  response_code (responded ev_moved 409 "The release has already been received.")
    <> Some 404.
Proof.
  split; [split; [left; reflexivity | reflexivity]|].
  split; [reflexivity|]. split; [vm_compute; reflexivity | discriminate].
Qed.

(** The ping, which gets no response. *)
Lemma at_most_one_response_witness :
  run env_async ev_ping w_empty = (inr ev_ping, w_empty) /\
  (writes (log w_empty) = writes (log w_empty) \/
   writes (log w_empty) = S (writes (log w_empty))).
Proof.
  split; [reflexivity|].
  apply (at_most_one_response env_async ev_ping w_empty (inr ev_ping) w_empty).
  reflexivity.
Defined.

(** C5, as the claim states it, fails at the ping: [run] writes no
    response onto the event, which comes back with its response unset;
    and it fails at the admitted release 42 in the same way. *)
Lemma ping_gets_no_response :
  responses_written env_async ev_ping w_empty <> 1%nat /\
  fst (run env_async ev_ping w_empty) = inr ev_ping /\
  response ev_ping = None /\
  responses_written env_async ev_publish w_empty <> 1%nat /\
  fst (run env_async ev_publish w_empty) = inr ev_publish.
Proof. vm_compute. repeat split; discriminate. Qed.

(** ** The lock, the codes and the payload *)

(** X1. [run] never removes an entry from the lock and never replaces the
    event an entry holds: the lock it leaves contains the lock it
    found. *)
Theorem lock_only_grows env ev w :
  state w ⊆ state (snd (run env ev w)).
Proof.
  destruct (run env ev w) as [r w'] eqn:Hrun. cbn [snd].
  destruct (run_cases env ev w r w' Hrun)
    as [[->|(c & m & ->)]|(ra & w1 & Hadm & Hw')]; [reflexivity..|].
  assert (Hst : state w' = state w1) by (destruct Hw' as [->|(c & m & ->)]; reflexivity).
  rewrite Hst.
  apply admission_inv in Hadm as (l & _ & _ & Hr).
  destruct ra as [e|ev1].
  - destruct Hr as [[_ ->]|(_ & rid & k & _ & _ & Hnone & ->)]; [reflexivity|].
    now apply insert_subseteq.
  - destruct Hr as (_ & _ & ->). reflexivity.
Qed.

Lemma error_code_receiver e c : error_code e = Some c -> receiver_code c.
Proof.
  unfold receiver_code.
  destruct e; simpl; intros [= <-]; auto.
Qed.

(** X2. Whatever [run] returns is the event it was given, or that event
    with a response whose code is 403, 404, 409 or 500 and whose status
    mirrors the code; the payload is never changed. *)
Theorem run_writes_error_codes_only env ev w ev' w' :
  run env ev w = (inr ev', w') ->
  payload ev' = payload ev /\
  (ev' = ev \/
   exists c msg,
     receiver_code c /\ response ev' = Some (mkResponse c msg) /\
     response_code ev' = Some c).
Proof.
  rewrite run_spec. unfold _handle_event. mred.
  assert (H500 : receiver_code 500) by (unfold receiver_code; auto).
  destruct (method_get _ _) as [e|d].
  - destruct (not_handled_yet ev) as [|[]]; intros H; inversion H; subst;
      (split; [reflexivity|]); [right; eauto | auto].
  - destruct (_ && _).
    + rewrite _handle_create_release_spec.
      destruct (admission env ev w) as [[e|ev1] w1] eqn:Hadm.
      * destruct (error_code e) as [c|] eqn:Hc.
        -- intros H; inversion H; subst. split; [reflexivity|].
           right. exists c, (str env e).
           split; [now apply (error_code_receiver e)|]. auto.
        -- destruct (not_handled_yet ev) as [|[]]; intros H; inversion H; subst;
             (split; [reflexivity|]); [right; eauto | auto].
      * apply admission_inv in Hadm as (l & _ & _ & -> & _).
        intros H; inversion H; subst. auto.
    + intros H; inversion H; subst. auto.
Qed.

(** ** Access errors *)

(** X3. When the registry lookup of a creation event that passed both
    duplicate checks raises [RepositoryAccessError] or
    [InvalidSenderError], the event is answered with code 403 and
    nothing is created, staged or enqueued. *)
Theorem access_error_403 env ev w rid k repo_id repo_name e :
  creation_event ev ->
  payload_path ev "release" "id" = inr rid ->
  py_hash rid = inr k ->
  state w !! k = None ->
  List.find (same_id rid) (rows w) = None ->
  payload_path ev "repository" "id" = inr repo_id ->
  payload_path ev "repository" "name" = inr repo_name ->
  Repository_get env repo_id repo_name = inl e ->
  e = RepositoryAccessError \/ e = InvalidSenderError ->
  exists w',
    run env ev w = (inr (responded ev 403 (str env e)), w') /\
    rows w' = rows w /\ pending w' = pending w /\ queue w' = queue w.
Proof.
  intros Hc Hrid Hk Hlock Hfind Hid Hname Hget He.
  rewrite (run_creation_spec env ev w (payload_path_release_ok ev _ _ Hrid) Hc).
  unfold_admission. rewrite Hrid. simpl. rewrite Hk. simpl.
  destruct (decide (is_Some (state w !! k))) as [Hin|Hout]; simpl.
  { rewrite Hlock in Hin. now destruct Hin. }
  rewrite Hfind. simpl. rewrite Hid, Hname. simpl. rewrite Hget. simpl.
  destruct He as [-> | ->]; simpl; eexists; (split; [reflexivity|]); auto.
Qed.

(** ** Synchronous dispatch *)

Lemma no_commit_no_delay_app l1 l2 :
  no_commit_no_delay l1 -> no_commit_no_delay l2 ->
  no_commit_no_delay (l1 ++ l2).
Proof. unfold no_commit_no_delay. rewrite forallb_app. now intros -> ->. Qed.

Lemma admission_sync env ev w r w' :
  async_mode env = false ->
  admission env ev w = (r, w') ->
  exists l, log w' = log w ++ l /\ no_commit_no_delay l /\
    queue w' = queue w /\
    match r with
    | inr _ =>
        exists l0 rel, l = l0 ++ [SessionAdd rel; ProcessRelease rel]
    | inl _ => True
    end.
Proof.
  unfold async_mode. intros Hsync H. unfold_admission.
  repeat split_match H.
  all: try congruence.
  all: inversion H; subst; clear H; cbn [log state rows pending queue].
  all: try (exists []; rewrite app_nil_r; repeat split; reflexivity).
  all: rewrite <- ?app_assoc; eexists; (split; [reflexivity|]);
    (split; [reflexivity|]); (split; [reflexivity|]); try exact I.
  all: match goal with
       | |- context [SessionAdd ?r] =>
           refine (ex_intro _ (cons _ (cons _ nil)) (ex_intro _ r _))
       end; simpl; reflexivity.
Qed.

(** X4. With [GITHUB_ASYNC_MODE] set to a falsy value the receiver itself
    never commits the session and never enqueues a task, whatever the
    event; when the admission succeeds, the row it staged is the one it
    handed to the synchronous processor, as its last two effects. *)
Theorem sync_never_commits env ev w r w' :
  async_mode env = false ->
  run env ev w = (r, w') ->
  exists l, log w' = log w ++ l /\ no_commit_no_delay l /\
    queue w' = queue w /\
    (release_entry_ok ev -> creation_event ev ->
     forall ev1 w1, admission env ev w = (inr ev1, w1) ->
       exists l0 rel, l = l0 ++ [SessionAdd rel; ProcessRelease rel]).
Proof.
  intros Hsync Hrun.
  assert (Hsucc : release_entry_ok ev -> creation_event ev ->
            forall ev1 w1, admission env ev w = (inr ev1, w1) -> w' = w1).
  { intros Hok Hc ev1 w1 Hadm.
    rewrite (run_creation_spec env ev w Hok Hc), Hadm in Hrun.
    now inversion Hrun. }
  destruct (run_cases env ev w r w' Hrun)
    as [[->|(c & m & ->)]|(ra & w1 & Hadm & Hw')].
  - exists []. rewrite app_nil_r. repeat split.
    intros Hok Hc ev1 w1 Hadm.
    pose proof (Hsucc Hok Hc ev1 w1 Hadm) as <-.
    apply admission_inv in Hadm as (l & Hl & _ & _ & Hne & _).
    exfalso. now apply (log_grows_ne w w l).
  - exists [WriteResponse c m]. repeat split.
    intros Hok Hc ev1 w1 Hadm.
    pose proof (Hsucc Hok Hc ev1 w1 Hadm) as <-.
    pose proof (admission_inv _ _ _ _ _ Hadm) as (l & Hl & Hwr & _).
    exfalso. unfold logged in Hl. cbn [log] in Hl.
    apply app_inv_head in Hl. subst l. discriminate.
  - pose proof (admission_sync env ev w ra w1 Hsync Hadm)
      as (l & Hl & Hq & Hqueue & Hra).
    destruct Hw' as [->|(c & m & ->)].
    + exists l. repeat split; try assumption.
      intros Hok Hc ev1 w2 Hadm2. rewrite Hadm in Hadm2.
      inversion Hadm2; subst. exact Hra.
    + exists (l ++ [WriteResponse c m]). unfold logged. cbn [log rows queue].
      split; [now rewrite Hl, app_assoc|].
      split; [now apply no_commit_no_delay_app|].
      split; [assumption|].
      intros Hok Hc ev1 w2 Hadm2.
      pose proof (Hsucc Hok Hc _ _ Hadm2) as Heq.
      rewrite Hadm in Hadm2. inversion Hadm2 as [[Hra2 Hw2]].
      rewrite <- Hw2 in Heq.
      apply (f_equal log) in Heq. unfold logged in Heq. cbn [log] in Heq.
      exfalso. apply (f_equal length) in Heq.
      rewrite length_app in Heq. simpl in Heq. lia.
Qed.

(** ** The happy path and what follows it *)

Lemma find_none_existsb {A} (f : A -> bool) l :
  List.find f l = None -> existsb f l = false.
Proof.
  induction l as [|x l IH]; simpl; [reflexivity|].
  destruct (f x); [discriminate | exact IH].
Qed.



(** The try body on the happy path, in asynchronous mode with nobody
    else committing and nothing failing. *)
Lemma admission_async_ok env ev w rid k repo_id repo_name repo tag_name :
  payload_path ev "release" "id" = inr rid ->
  py_hash rid = inr k ->
  state w !! k = None ->
  List.find (same_id rid) (rows w) = None ->
  payload_path ev "repository" "id" = inr repo_id ->
  payload_path ev "repository" "name" = inr repo_name ->
  Repository_get env repo_id repo_name = inr repo ->
  enabled repo = true ->
  payload_path ev "release" "tag_name" = inr tag_name ->
  async_mode env = true ->
  other_commits env = [] -> commit_fault env = None ->
  pending w = [] ->
  forall rel, rel = mkRelease rid tag_name repo ev RECEIVED ->
  let w1 := mkWorld (<[k:=ev]> (state w)) (rows w ++ [rel]) [] (queue w)
              (log w ++ [QueryRelease rid; GetRepository repo_id repo_name;
                         SessionAdd rel; SessionCommit; Delay rid]) in
  admission env ev w =
    match delay_fault env with
    | Some e => (inl e, w1)
    | None =>
        (inr ev,
         mkWorld (state w) (rows w ++ [rel]) [] (queue w ++ [rid]) (log w1))
    end.
Proof.
  intros Hrid Hk Hlock Hfind Hid Hname Hget Hen Htag Hasync Hoth Hcf Hpend
    rel ->.
  unfold async_mode in Hasync.
  unfold_admission. rewrite Hrid. simpl. rewrite Hk. simpl.
  destruct (decide (is_Some (state w !! k))) as [Hin|Hout]; simpl.
  { rewrite Hlock in Hin. now destruct Hin. }
  rewrite Hfind. simpl. rewrite Hid, Hname. simpl. rewrite Hget. simpl.
  rewrite Hen. simpl. rewrite Htag. simpl. rewrite Hasync. simpl.
  rewrite Hcf, Hoth, Hpend. simpl.
  rewrite (find_none_existsb _ _ Hfind). simpl.
  rewrite <- !app_assoc. simpl.
  destruct (delay_fault env) as [e|]; simpl; [reflexivity|].
  rewrite lookup_insert_eq. simpl.
  now rewrite (delete_insert_id _ _ _ Hlock).
Qed.

Section Delivery.

Variables (env : Env) (ev : Event) (w : World).
Variables (rid : json) (k : pykey) (repo_id repo_name tag_name : json).
Variable repo : Repository.

Hypothesis Hcreation : creation_event ev.
Hypothesis Hrid : payload_path ev "release" "id" = inr rid.
Hypothesis Hkey : py_hash rid = inr k.
Hypothesis Hlock : state w !! k = None.
Hypothesis Hfind : List.find (same_id rid) (rows w) = None.
Hypothesis Hrepo_id : payload_path ev "repository" "id" = inr repo_id.
Hypothesis Hrepo_name : payload_path ev "repository" "name" = inr repo_name.
Hypothesis Hget : Repository_get env repo_id repo_name = inr repo.
Hypothesis Henabled : enabled repo = true.
Hypothesis Htag : payload_path ev "release" "tag_name" = inr tag_name.
Hypothesis Hasync : async_mode env = true.
Hypothesis Hothers : other_commits env = [].
Hypothesis Hcommit : commit_fault env = None.
Hypothesis Hpending : pending w = [].

Let rel : Release := mkRelease rid tag_name repo ev RECEIVED.

Let Hadmission :=
  admission_async_ok env ev w rid k repo_id repo_name repo tag_name
    Hrid Hkey Hlock Hfind Hrepo_id Hrepo_name Hget Henabled Htag Hasync
    Hothers Hcommit Hpending rel eq_refl.

(** X5. A well-formed creation event for an enabled repository, not seen
    before, with nothing failing: [run] returns the event without a
    response, one row with status [RECEIVED], the tag of the payload
    and the resolved repository is appended to the durable rows, the
    session is empty, the release id is enqueued once, and the lock is
    as it was found. *)
Theorem delivery_is_admitted :
  delay_fault env = None ->
  run env ev w =
    (inr ev,
     mkWorld (state w) (rows w ++ [rel]) [] (queue w ++ [rid])
       (log w ++ [QueryRelease rid; GetRepository repo_id repo_name;
                  SessionAdd rel; SessionCommit; Delay rid])).
Proof.
  intros Hdelay.
  rewrite (run_creation_spec env ev w (payload_path_release_ok ev _ _ Hrid)
             Hcreation).
  rewrite Hadmission, Hdelay. reflexivity.
Qed.


(** X7. When the enqueue raises an unclassified error after the commit,
    the sender is told 500 although the row is durable: nothing rolls
    the commit back, nothing is enqueued, and the lock keeps the entry
    of the release. *)
Theorem enqueue_failure_after_commit e :
  delay_fault env = Some e ->
  error_code e = None ->
  unclaimed ev ->
  exists w',
    run env ev w = (inr (responded ev 500 (str env e)), w') /\
    rows w' = rows w ++ [rel] /\ queue w' = queue w /\
    state w' !! k = Some ev /\
    log w' = log w ++ [QueryRelease rid; GetRepository repo_id repo_name;
                       SessionAdd rel; SessionCommit; Delay rid;
                       WriteResponse 500 (str env e)].
Proof.
  intros Hdelay Hcode Hun.
  rewrite (run_creation_spec env ev w (payload_path_release_ok ev _ _ Hrid)
             Hcreation).
  rewrite Hadmission, Hdelay, Hcode, (unclaimed_not_handled ev Hun).
  eexists. split; [reflexivity|]. cbn [logged rows queue state log].
  repeat split.
  - apply lookup_insert_eq.
  - now rewrite <- app_assoc.
Qed.

End Delivery.

(** ** Payloads that break off the admission *)

(** X8. A release id that is a list or an object cannot be a key of the
    lock: the membership test raises [TypeError], and a creation event
    with such an id is answered with 500 before the lock is written and
    before any collaborator is called. *)
Theorem unhashable_release_id_500 env ev w rid :
  creation_event ev ->
  payload_path ev "release" "id" = inr rid ->
  (exists items, rid = JArr items) \/ (exists fields, rid = JObj fields) ->
  unclaimed ev ->
  exists msg,
    py_hash rid = inl (TypeError msg) /\
    run env ev w =
      (inr (responded ev 500 msg), logged w (WriteResponse 500 msg)).
Proof.
  intros Hc Hrid Hshape Hun.
  assert (Hhash : exists msg, py_hash rid = inl (TypeError msg)).
  { destruct Hshape as [(items & ->)|(fields & ->)]; simpl; eauto. }
  destruct Hhash as (msg & Hhash). exists msg. split; [assumption|].
  rewrite (run_creation_spec env ev w (payload_path_release_ok ev _ _ Hrid) Hc).
  assert (Hadm : admission env ev w = (inl (TypeError msg), w)).
  { unfold admission. mred. rewrite Hrid. simpl. now rewrite Hhash. }
  now rewrite Hadm, (unclaimed_not_handled ev Hun).
Qed.

(** X9. A release object without [tag_name] is found out late: the store
    was queried, the registry consulted and the repository found
    enabled when the [KeyError] is raised.  The event is answered with
    500, no row is staged or committed, nothing is enqueued, and the
    lock keeps the entry. *)
Theorem missing_tag_name_500 env ev w rid k repo_id repo_name repo d :
  creation_event ev ->
  dict_find "release" (payload ev) = Some (JObj d) ->
  dict_find "id" d = Some rid ->
  dict_find "tag_name" d = None ->
  py_hash rid = inr k ->
  state w !! k = None ->
  List.find (same_id rid) (rows w) = None ->
  payload_path ev "repository" "id" = inr repo_id ->
  payload_path ev "repository" "name" = inr repo_name ->
  Repository_get env repo_id repo_name = inr repo ->
  enabled repo = true ->
  unclaimed ev ->
  exists w',
    run env ev w = (inr (responded ev 500 "'tag_name'"), w') /\
    rows w' = rows w /\ pending w' = pending w /\ queue w' = queue w /\
    state w' !! k = Some ev /\
    log w' = log w ++ [QueryRelease rid; GetRepository repo_id repo_name;
                       WriteResponse 500 "'tag_name'"].
Proof.
  intros Hc Hrel Hidd Htag Hk Hlock Hfind Hid Hname Hget Hen Hun.
  assert (Hrid : payload_path ev "release" "id" = inr rid).
  { unfold payload_path. simpl. rewrite Hrel. simpl. now rewrite Hidd. }
  assert (Htag' : payload_path ev "release" "tag_name"
                  = inl (KeyError "tag_name")).
  { unfold payload_path. simpl. rewrite Hrel. simpl. now rewrite Htag. }
  rewrite (run_creation_spec env ev w (payload_path_release_ok ev _ _ Hrid) Hc).
  unfold_admission. rewrite Hrid. simpl. rewrite Hk. simpl.
  destruct (decide (is_Some (state w !! k))) as [Hin|Hout]; simpl.
  { rewrite Hlock in Hin. now destruct Hin. }
  rewrite Hfind. simpl. rewrite Hid, Hname. simpl. rewrite Hget. simpl.
  rewrite Hen. simpl. rewrite Htag'. simpl.
  rewrite (unclaimed_not_handled ev Hun).
  eexists. split; [reflexivity|]. cbn [logged rows pending queue state log].
  repeat split.
  - apply lookup_insert_eq.
  - now rewrite <- !app_assoc.
Qed.

(** ** After a failed admission *)


(** ** [get_owner] *)

Lemma py_or_not_none a : py_or a (JStr "") <> JNull.
Proof.
  unfold py_or. destruct (truthy a) eqn:Ht; [|discriminate].
  intros ->. discriminate.
Qed.

(** X11. [get_owner] gives [None] exactly when the lookup raises or finds no
    user.  Otherwise it gives one creator, whose affiliation is never
    [None], and whose name is truthy whenever the name or the login of
    the user is. *)
Theorem get_owner_creator gh_user owner :
  (get_owner gh_user owner = None <->
     (exists e, gh_user owner = inl e) \/ gh_user owner = inr None) /\
  (forall creators, get_owner gh_user owner = Some creators ->
     exists u c,
       gh_user owner = inr (Some u) /\ creators = [c] /\
       affiliation c <> JNull /\
       (truthy (user_name u) = true \/ truthy (login u) = true ->
        truthy (creator_name c) = true)).
Proof.
  unfold get_owner, get_owner_body, sum_bind.
  destruct (gh_user owner) as [e|[u|]]; split.
  - split; [eauto | reflexivity].
  - discriminate.
  - split; [discriminate | intros [[e He]|H]; discriminate].
  - intros creators [= <-]. exists u, (mkCreator (py_or (user_name u) (login u))
                                        (py_or (company u) (JStr ""))).
    repeat split.
    + apply py_or_not_none.
    + cbn [creator_name]. unfold py_or.
      destruct (truthy (user_name u)) eqn:Hn; [auto|].
      intros [H|H]; [discriminate | assumption].
  - split; [auto | reflexivity].
  - discriminate.
Qed.

(** ** The order of contributors *)

Lemma insert_desc_perm x l : insert_desc x l ≡ₚ x :: l.
Proof.
  induction l as [|y l IH]; simpl; [reflexivity|].
  destruct (contributions x <? contributions y); [|reflexivity].
  rewrite IH. apply Permutation_swap.
Qed.

Lemma insert_desc_sorted x l :
  StronglySorted more_first l -> StronglySorted more_first (insert_desc x l).
Proof.
  induction l as [|y l IH]; simpl; intros Hs.
  - repeat constructor.
  - apply StronglySorted_inv in Hs as [Hs Hall].
    destruct (Z.ltb_spec (contributions x) (contributions y)) as [Hlt|Hge].
    + constructor; [now apply IH|].
      rewrite insert_desc_perm. constructor; [unfold more_first; lia | assumption].
    + constructor; [now constructor|].
      constructor; [assumption|].
      eapply Forall_impl; [exact Hall|]. unfold more_first. intros z Hz. lia.
Qed.

Lemma insert_desc_filter n x l :
  List.filter (with_contributions n) (insert_desc x l)
  = List.filter (with_contributions n) (x :: l).
Proof.
  induction l as [|y l IH]; [reflexivity|]. cbn [insert_desc].
  destruct (Z.ltb_spec (contributions x) (contributions y)) as [Hlt|Hge];
    [|reflexivity].
  cbn [List.filter] in *. rewrite IH. unfold with_contributions.
  destruct (Z.eqb_spec (contributions x) n), (Z.eqb_spec (contributions y) n);
    try reflexivity. lia.
Qed.

Lemma sorted_reverse_perm l : sorted_reverse l ≡ₚ l.
Proof.
  unfold sorted_reverse. induction l as [|x l IH]; simpl; [reflexivity|].
  now rewrite insert_desc_perm, IH.
Qed.

Lemma sorted_reverse_sorted l : StronglySorted more_first (sorted_reverse l).
Proof.
  unfold sorted_reverse. induction l as [|x l IH]; simpl; [constructor|].
  now apply insert_desc_sorted.
Qed.

Lemma sorted_reverse_filter n l :
  List.filter (with_contributions n) (sorted_reverse l)
  = List.filter (with_contributions n) l.
Proof.
  unfold sorted_reverse. induction l as [|x l IH]; simpl; [reflexivity|].
  rewrite insert_desc_filter. cbn [List.filter]. now rewrite IH.
Qed.

(** X12. [sorted(..., reverse=True)] on the contributors loses and invents
    nobody, puts more contributions first, and keeps contributors with
    the same number of contributions in the order the API listed them. *)
Theorem sorted_reverse_stable (l : list Contributor) :
  sorted_reverse l ≡ₚ l /\
  StronglySorted more_first (sorted_reverse l) /\
  forall n, List.filter (with_contributions n) (sorted_reverse l)
            = List.filter (with_contributions n) l.
Proof.
  split; [apply sorted_reverse_perm|].
  split; [apply sorted_reverse_sorted|].
  intros n. apply sorted_reverse_filter.
Qed.

(** ** [get_contributors] *)

Lemma map_exn_inr {A B} (f : A -> exn + B) l ys :
  map_exn f l = inr ys -> Forall2 (fun x y => f x = inr y) l ys.
Proof.
  revert ys. induction l as [|x l IH]; simpl; intros ys.
  - intros [= <-]. constructor.
  - unfold sum_bind. destruct (f x) as [e|y] eqn:Hx; [discriminate|].
    destruct (map_exn f l) as [e|ys']; [discriminate|].
    intros [= <-]. constructor; [assumption | now apply IH].
Qed.

Lemma map_exn_inl {A B} (f : A -> exn + B) l :
  (exists e, map_exn f l = inl e) <->
  exists x e, In x l /\ f x = inl e.
Proof.
  induction l as [|x l IH]; simpl.
  - split; [intros [e H]; discriminate | intros (x & e & [] & _)].
  - unfold sum_bind. destruct (f x) as [e|y] eqn:Hx.
    + split; [intros _; exists x, e; auto | eauto].
    + destruct (map_exn f l) as [e|ys].
      * split; [intros _|eauto].
        destruct (proj1 IH (ex_intro _ e eq_refl)) as (x' & e' & Hin & Hx').
        exists x', e'. auto.
      * split; [intros [e H]; discriminate|].
        intros (x' & e' & [<-|Hin] & Hx'); [congruence|].
        destruct (proj2 IH (ex_intro _ x' (ex_intro _ e' (conj Hin Hx'))))
          as [e He]. discriminate.
Qed.

Lemma omap_id_length {A} (os : list (option A)) :
  (length (omap id os) <= length os)%nat.
Proof. induction os as [|[a|] os IH]; cbn in *; lia. Qed.

Lemma filter_length_le {A} (f : A -> bool) l :
  (length (List.filter f l) <= length l)%nat.
Proof. induction l as [|x l IH]; simpl; [lia|]. destruct (f x); simpl; lia. Qed.

Lemma selected_length cs : (length (selected cs) <= 30)%nat.
Proof.
  unfold selected. etransitivity; [apply filter_length_le|].
  rewrite length_take. lia.
Qed.

Lemma filter_sublist {A} (f : A -> bool) l : List.filter f l `sublist_of` l.
Proof.
  induction l as [|x l IH]; simpl; [constructor|].
  destruct (f x); now constructor.
Qed.

Lemma picked_authors {A B} (R : A -> option B -> Prop) l os :
  Forall2 R l os ->
  exists picked,
    picked `sublist_of` l /\
    Forall2 (fun x y => R x (Some y)) picked (omap id os).
Proof.
  induction 1 as [|x o l os Hxo _ (picked & Hsub & Hall)]; cbn.
  - exists []. split; constructor.
  - destruct o as [y|]; cbn.
    + exists (x :: picked). split; now constructor.
    + exists picked. split; [now constructor | assumption].
Qed.

(** What [get_contributors] computes once its [try] and its two tests
    are resolved. *)
Lemma get_contributors_spec lc rg repo_id :
  get_contributors lc rg repo_id =
  match lc repo_id with
  | inl _ => None
  | inr (cs, st) =>
      if st =? 200 then
        match map_exn (get_author rg) (selected cs) with
        | inl _ => None
        | inr authors => Some (omap id authors)
        end
      else None
  end.
Proof.
  unfold get_contributors, sum_bind.
  destruct (lc repo_id) as [e|[cs st]]; [reflexivity|].
  destruct (st =? 200); [|reflexivity].
  destruct (map_exn _ _); reflexivity.
Qed.

(** X13. [get_contributors] never returns more than 30 authors. *)
Theorem get_contributors_at_most_30 lc rg repo_id authors :
  get_contributors lc rg repo_id = Some authors ->
  (length authors <= 30)%nat.
Proof.
  rewrite get_contributors_spec.
  destruct (lc repo_id) as [e|[cs st]]; [discriminate|].
  destruct (st =? 200); [|discriminate].
  destruct (map_exn _ _) as [e|os] eqn:Hmap; [discriminate|].
  intros [= <-]. etransitivity; [apply omap_id_length|].
  apply map_exn_inr, Forall2_length in Hmap. rewrite <- Hmap.
  apply selected_length.
Qed.

(** X14. [get_contributors] returns [None] in exactly three cases: the
    listing raises; the listing ends with a status other than 200; or
    the profile request of one of the selected contributors raises,
    which voids the whole list. *)
Theorem get_contributors_none_iff lc rg repo_id :
  get_contributors lc rg repo_id = None <->
  (exists e, lc repo_id = inl e) \/
  exists cs st,
    lc repo_id = inr (cs, st) /\
    (st <> 200 \/
     exists c e, In c (selected cs) /\ get_author rg c = inl e).
Proof.
  rewrite get_contributors_spec.
  destruct (lc repo_id) as [e|[cs st]].
  - split; [eauto | reflexivity].
  - destruct (Z.eqb_spec st 200) as [->|Hne].
    + destruct (map_exn (get_author rg) (selected cs)) as [e|os] eqn:Hmap.
      * split; [intros _ | reflexivity]. right. exists cs, 200.
        split; [reflexivity|]. right.
        apply (proj1 (map_exn_inl _ _)). eauto.
      * split; [discriminate|].
        intros [[e He]|(cs' & st' & [= <- <-] & [Hst|Hraise])];
          [discriminate | congruence |].
        apply (proj2 (map_exn_inl _ _)) in Hraise as [e He]. congruence.
    + split; [intros _ | reflexivity]. right. exists cs, st. auto.
Qed.

Lemma sublist_strongly_sorted {A} (R : A -> A -> Prop) l1 l2 :
  l1 `sublist_of` l2 -> StronglySorted R l2 -> StronglySorted R l1.
Proof.
  induction 1 as [|x l1 l2 Hsub IH|x l1 l2 Hsub IH]; intros Hs.
  - constructor.
  - apply StronglySorted_inv in Hs as [Hs Hall].
    constructor; [now apply IH|].
    apply Forall_forall. intros y Hy.
    rewrite Forall_forall in Hall. apply Hall.
    now apply (elem_of_sublist l1 l2).
  - apply StronglySorted_inv in Hs as [Hs _]. now apply IH.
Qed.

Lemma selected_users cs c : c ∈ selected cs -> type c = "User".
Proof.
  unfold selected. rewrite list_elem_of_In, filter_In.
  intros [_ Hu]. now apply String.eqb_eq.
Qed.

(** X15. The authors [get_contributors] returns are, in this order, the
    profiles of contributors picked from the 30 with the most
    contributions: all of type "User", most contributions first, each
    one a listed contributor whose profile request answered 200. *)
Theorem get_contributors_selection lc rg repo_id authors :
  get_contributors lc rg repo_id = Some authors ->
  exists cs picked,
    lc repo_id = inr (cs, 200) /\
    picked `sublist_of` take 30 (sorted_reverse cs) /\
    Forall (fun c => type c = "User") picked /\
    StronglySorted more_first picked /\
    (forall c, In c picked -> In c cs) /\
    Forall2 (fun c a => get_author rg c = inr (Some a)) picked authors.
Proof.
  rewrite get_contributors_spec.
  destruct (lc repo_id) as [e|[cs st]]; [discriminate|].
  destruct (Z.eqb_spec st 200) as [->|Hne]; [|discriminate].
  destruct (map_exn _ _) as [e|os] eqn:Hmap; [discriminate|].
  intros [= <-]. apply map_exn_inr in Hmap.
  destruct (picked_authors _ _ _ Hmap) as (picked & Hsub & Hall).
  pose proof (sorted_reverse_perm cs) as Hperm.
  pose proof (sorted_reverse_sorted cs) as Hsorted.
  assert (Hsel : selected cs `sublist_of` take 30 (sorted_reverse cs))
    by apply filter_sublist.
  assert (Htop : picked `sublist_of` take 30 (sorted_reverse cs))
    by (etransitivity; eassumption).
  assert (Hall30 : picked `sublist_of` sorted_reverse cs).
  { etransitivity; [exact Htop | apply sublist_take]. }
  exists cs, picked. repeat split; try assumption.
  - apply Forall_forall. intros c Hc. apply (selected_users cs).
    now apply (elem_of_sublist picked).
  - now apply (sublist_strongly_sorted _ _ _ Hall30).
  - intros c Hc. apply list_elem_of_In. rewrite <- Hperm.
    apply (elem_of_sublist picked); [now apply list_elem_of_In | assumption].
Qed.

Lemma filter_all_false {A} (f : A -> bool) l :
  Forall (fun x => f x = false) l -> List.filter f l = [].
Proof.
  induction 1 as [|x l Hx _ IH]; simpl; [reflexivity|]. now rewrite Hx.
Qed.

(** X16. The cut to 30 comes before the test of the type: when the 30
    contributors with the most contributions are all of another type
    than "User", no author is returned and no profile is requested,
    however many users come after them. *)
Theorem get_contributors_cut_before_type lc rg repo_id cs :
  lc repo_id = inr (cs, 200) ->
  Forall (fun c => is_user c = false) (take 30 (sorted_reverse cs)) ->
  selected cs = [] /\ get_contributors lc rg repo_id = Some [].
Proof.
  intros Hlc Hbots.
  assert (Hsel : selected cs = []) by now apply filter_all_false.
  split; [assumption|].
  rewrite get_contributors_spec, Hlc. simpl. now rewrite Hsel.
Qed.

(** ** The metadata readers *)

Lemma value_error_handler_never {A} config key (r : merr + A) msg :
  value_error_handler config key r <> inl (ValueError msg).
Proof.
  unfold value_error_handler, sum_bind, config_item.
  destruct r as [[m|f|e]|x]; try discriminate.
  destruct (subscript (JObj config) key); discriminate.
Qed.

(** X18. With the repository reachable and the metadata file configured: a
    file that does not exist in the ref gives the empty dict, and
    nothing is decoded or parsed; content that cannot be decoded or is
    not JSON gives [CustomGitHubMetadataError] naming the configured
    file; content that parses gives the parsed document. *)
Theorem get_extra_metadata_outcomes o owner repo_name ref file_contents path :
  gh_repository o owner repo_name = inr file_contents ->
  config_item (config o) "GITHUB_METADATA_FILE" = inr path ->
  (file_contents path ref = inr None ->
     get_extra_metadata o owner repo_name ref = inr (JObj [])) /\
  (forall decoded msg,
     file_contents path ref = inr (Some decoded) ->
     decode_utf8 o decoded = inl (ValueError msg) \/
     (exists text, decode_utf8 o decoded = inr text /\
                   json_loads o text = inl (ValueError msg)) ->
     get_extra_metadata o owner repo_name ref
       = inl (CustomGitHubMetadataError path)) /\
  (forall decoded text v,
     file_contents path ref = inr (Some decoded) ->
     decode_utf8 o decoded = inr text -> json_loads o text = inr v ->
     get_extra_metadata o owner repo_name ref = inr v).
Proof.
  intros Hrepo Hpath. unfold get_extra_metadata.
  rewrite Hrepo. cbn [sum_bind]. rewrite Hpath. cbn [sum_bind].
  split; [|split].
  - intros ->. reflexivity.
  - intros decoded msg -> [Hd|(text & Hd & Hl)]; cbn [sum_bind]; rewrite Hd;
      cbn [sum_bind]; [|rewrite Hl]; cbn [value_error_handler];
      now rewrite Hpath.
  - intros decoded text v -> Hd Hl. cbn [sum_bind]. rewrite Hd.
    cbn [sum_bind]. now rewrite Hl.
Qed.

Lemma dict_find_set_eq k v d : dict_find k (dict_set k v d) = Some v.
Proof.
  induction d as [|[k' v'] d IH]; simpl.
  - now rewrite String.eqb_refl.
  - destruct (String.eqb k k') eqn:Hk; simpl; [now rewrite String.eqb_refl|].
    now rewrite Hk.
Qed.

Lemma dict_find_set_ne k k0 v d :
  k0 <> k -> dict_find k0 (dict_set k v d) = dict_find k0 d.
Proof.
  intros Hne. apply String.eqb_neq in Hne.
  induction d as [|[k' v'] d IH]; simpl.
  - now rewrite Hne.
  - destruct (String.eqb k k') eqn:Hk; simpl.
    + apply String.eqb_eq in Hk. subst k'. now rewrite Hne.
    + now rewrite IH.
Qed.

(** X17. Neither metadata reader lets a [ValueError] out, wherever in its
    [try] body it was raised; and whenever [get_citation_metadata]
    raises, [release.errors] is as it was. *)
Theorem metadata_readers_no_value_error o owner repo_name ref release_errors :
  (forall msg, get_extra_metadata o owner repo_name ref <> inl (ValueError msg)) /\
  (forall msg,
     fst (get_citation_metadata o owner repo_name ref release_errors)
       <> inl (ValueError msg)) /\
  (forall e,
     fst (get_citation_metadata o owner repo_name ref release_errors) = inl e ->
     snd (get_citation_metadata o owner repo_name ref release_errors)
       = release_errors).
Proof.
  split; [intros msg; apply value_error_handler_never|].
  unfold get_citation_metadata.
  match goal with
  | |- context [value_error_handler ?c ?key ?b] =>
      pose proof (value_error_handler_never c key b) as Hnever;
      destruct (value_error_handler c key b) as [e|[data errs]]
  end; cbn [fst snd]; split.
  - intros msg H. inversion H; subst. now apply (Hnever msg).
  - intros e' _. reflexivity.
  - intros msg H. discriminate H.
  - intros e' H. discriminate H.
Qed.

(** X19. When the citation file is read and the schema has loaded it,
    [get_citation_metadata] returns the loaded data.  Without schema
    errors [release.errors] is untouched.  With schema errors, their
    stringified form is what [release.errors] holds under
    "CITATION.cff", and every other entry of [release.errors] is as it
    was. *)
Theorem citation_errors_recorded o owner repo_name ref release_errors
    file_contents path decoded text document load data errors :
  gh_repository o owner repo_name = inr file_contents ->
  config_item (config o) "GITHUB_CITATION_FILE" = inr path ->
  file_contents path ref = inr (Some decoded) ->
  decode_utf8 o decoded = inr text ->
  yaml_safe_load o text = inr document ->
  citation_schema o = Some load ->
  load document = inr (data, errors) ->
  exists errs,
    get_citation_metadata o owner repo_name ref release_errors
      = (inr data, errs) /\
    (errors = [] -> errs = release_errors) /\
    (errors <> [] ->
     exists d,
       errs = Some d /\
       dict_find "CITATION.cff" d = Some (JObj (stringify o errors)) /\
       forall key, key <> "CITATION.cff" ->
         dict_find key d = dict_find key (default [] release_errors)).
Proof.
  intros Hrepo Hpath Hfile Hdec Hyaml Hschema Hload.
  unfold get_citation_metadata.
  rewrite Hrepo. cbn [sum_bind]. rewrite Hpath. cbn [sum_bind].
  rewrite Hfile. cbn [sum_bind]. rewrite Hdec. cbn [sum_bind].
  rewrite Hyaml. cbn [sum_bind]. rewrite Hschema, Hload.
  cbn [sum_bind value_error_handler fst snd].
  eexists. split; [reflexivity|]. split.
  - intros ->. simpl. now destruct release_errors as [[|]|].
  - intros Hne. destruct errors as [|kv errors]; [contradiction|].
    cbn [stringify map].
    destruct release_errors as [[|b d]|]; cbn [record_citation_errors].
    + eexists. split; [reflexivity|]. split.
      * simpl. reflexivity.
      * intros key Hkey. simpl. apply String.eqb_neq in Hkey. now rewrite Hkey.
    + eexists. split; [reflexivity|]. split.
      * apply dict_find_set_eq.
      * intros key Hkey. now apply dict_find_set_ne.
    + eexists. split; [reflexivity|]. split.
      * simpl. reflexivity.
      * intros key Hkey. simpl. apply String.eqb_neq in Hkey. now rewrite Hkey.
Qed.

(** ** The further theorems at sample inputs *)

Lemma run_writes_error_codes_only_witness :
  run env_async ev_disabled w_empty
    = (inr (responded ev_disabled 409 "The repository is disabled."),
       snd (run env_async ev_disabled w_empty)) /\
  exists c msg,
    receiver_code c /\
    response (responded ev_disabled 409 "The repository is disabled.")
      = Some (mkResponse c msg).
Proof.
  assert (Hrun : run env_async ev_disabled w_empty
            = (inr (responded ev_disabled 409 "The repository is disabled."),
               snd (run env_async ev_disabled w_empty)))
    by (vm_compute; reflexivity).
  split; [exact Hrun|].
  destruct (run_writes_error_codes_only _ _ _ _ _ Hrun) as [_ [Heq|H]].
  - discriminate Heq.
  - destruct H as (c & msg & Hc & Hr & _). exists c, msg. auto.
Defined.

Lemma access_error_403_witness :
  creation_event ev_publish /\
  Repository_get env_forbidden (JNum 7) (JStr "lib") = inl RepositoryAccessError /\
  exists w',
    run env_forbidden ev_publish w_empty
      = (inr (responded ev_publish 403 (str env_forbidden RepositoryAccessError)),
         w') /\
    rows w' = rows w_empty /\ pending w' = pending w_empty /\
    queue w' = queue w_empty.
Proof.
  split; [exact ev_publish_creation|]. split; [reflexivity|].
  apply (access_error_403 env_forbidden ev_publish w_empty
           (JNum 42) (KInt 42) (JNum 7) (JStr "lib") RepositoryAccessError);
    solve [exact ev_publish_creation | reflexivity | vm_compute; reflexivity
          | left; reflexivity].
Defined.

Lemma sync_never_commits_witness :
  async_mode env_sync = false /\
  exists l,
    log (snd (run env_sync ev_publish w_empty)) = log w_empty ++ l /\
    no_commit_no_delay l /\
    queue (snd (run env_sync ev_publish w_empty)) = queue w_empty.
Proof.
  split; [reflexivity|].
  destruct (sync_never_commits env_sync ev_publish w_empty
              (fst (run env_sync ev_publish w_empty))
              (snd (run env_sync ev_publish w_empty))
              eq_refl (surjective_pairing _))
    as (l & Hl & Hq & Hqueue & _).
  exists l. auto.
Defined.

Lemma delivery_is_admitted_witness :
  creation_event ev_publish /\
  Repository_get env_async (JNum 7) (JStr "lib") = inr repo_lib /\
  exists w',
    run env_async ev_publish w_empty = (inr ev_publish, w') /\
    rows w' = [row_42] /\ queue w' = [JNum 42].
Proof.
  split; [exact ev_publish_creation|]. split; [reflexivity|].
  eexists. split.
  - apply (delivery_is_admitted env_async ev_publish w_empty
             (JNum 42) (KInt 42) (JNum 7) (JStr "lib") (JStr "v1.0") repo_lib);
      solve [exact ev_publish_creation | reflexivity | vm_compute; reflexivity].
  - split; reflexivity.
Defined.


Lemma enqueue_failure_after_commit_witness :
  creation_event ev_publish /\
  delay_fault env_broker_down = Some (OtherException "broker down") /\
  unclaimed ev_publish /\
  exists w',
    run env_broker_down ev_publish w_empty
      = (inr (responded ev_publish 500 "broker down"), w') /\
    rows w' = [row_42] /\ queue w' = [].
Proof.
  split; [exact ev_publish_creation|]. split; [reflexivity|].
  split; [left; reflexivity|].
  destruct (enqueue_failure_after_commit env_broker_down ev_publish w_empty
              (JNum 42) (KInt 42) (JNum 7) (JStr "lib") (JStr "v1.0") repo_lib
              ev_publish_creation eq_refl eq_refl eq_refl eq_refl eq_refl
              eq_refl eq_refl eq_refl eq_refl eq_refl eq_refl eq_refl eq_refl
              (OtherException "broker down") eq_refl eq_refl
              (or_introl eq_refl))
    as (w' & Hrun & Hrows & Hq & _).
  exists w'. auto.
Defined.

Lemma ev_list_id_creation : creation_event ev_list_id.
Proof. split; [left; reflexivity | reflexivity]. Defined.

Lemma unhashable_release_id_500_witness :
  creation_event ev_list_id /\
  payload_path ev_list_id "release" "id" = inr (JArr [JNum 1]) /\
  unclaimed ev_list_id /\
  exists msg,
    run env_async ev_list_id w_empty
      = (inr (responded ev_list_id 500 msg),
         logged w_empty (WriteResponse 500 msg)).
Proof.
  split; [exact ev_list_id_creation|]. split; [reflexivity|].
  split; [left; reflexivity|].
  destruct (unhashable_release_id_500 env_async ev_list_id w_empty
              (JArr [JNum 1]) ev_list_id_creation eq_refl
              (or_introl (ex_intro _ [JNum 1] eq_refl)) (or_introl eq_refl))
    as (msg & _ & Hrun).
  exists msg. exact Hrun.
Defined.

Lemma ev_no_tag_creation : creation_event ev_no_tag.
Proof. split; [left; reflexivity | reflexivity]. Defined.

Lemma missing_tag_name_500_witness :
  creation_event ev_no_tag /\
  payload_path ev_no_tag "release" "tag_name" = inl (KeyError "tag_name") /\
  unclaimed ev_no_tag /\
  exists w',
    run env_async ev_no_tag w_empty
      = (inr (responded ev_no_tag 500 "'tag_name'"), w') /\
    rows w' = rows w_empty /\ pending w' = pending w_empty.
Proof.
  split; [exact ev_no_tag_creation|]. split; [reflexivity|].
  split; [left; reflexivity|].
  destruct (missing_tag_name_500 env_async ev_no_tag w_empty
              (JNum 45) (KInt 45) (JNum 7) (JStr "lib") repo_lib
              [("id", JNum 45)]
              ev_no_tag_creation eq_refl eq_refl eq_refl eq_refl eq_refl
              eq_refl eq_refl eq_refl eq_refl eq_refl (or_introl eq_refl))
    as (w' & Hrun & Hrows & Hpend & _).
  exists w'. auto.
Defined.


Lemma sample_authors :
  get_contributors sample_listing sample_requests_get (JNum 1)
  = Some [mkCreator (JStr "cy") (JStr "CERN"); mkCreator (JStr "Ada") (JStr "")].
Proof. vm_compute. reflexivity. Defined.

Lemma get_contributors_at_most_30_witness :
  get_contributors sample_listing sample_requests_get (JNum 1)
    = Some [mkCreator (JStr "cy") (JStr "CERN"); mkCreator (JStr "Ada") (JStr "")] /\
  (length [mkCreator (JStr "cy") (JStr "CERN"); mkCreator (JStr "Ada") (JStr "")]
   <= 30)%nat.
Proof.
  split; [exact sample_authors|].
  exact (get_contributors_at_most_30 sample_listing sample_requests_get
           (JNum 1) _ sample_authors).
Defined.

Lemma get_contributors_selection_witness :
  get_contributors sample_listing sample_requests_get (JNum 1)
    = Some [mkCreator (JStr "cy") (JStr "CERN"); mkCreator (JStr "Ada") (JStr "")] /\
  exists picked,
    StronglySorted more_first picked /\
    Forall (fun c => type c = "User") picked /\
    Forall2 (fun c a => get_author sample_requests_get c = inr (Some a)) picked
      [mkCreator (JStr "cy") (JStr "CERN"); mkCreator (JStr "Ada") (JStr "")].
Proof.
  split; [exact sample_authors|].
  destruct (get_contributors_selection sample_listing sample_requests_get
              (JNum 1) _ sample_authors)
    as (cs & picked & _ & _ & Husers & Hsorted & _ & Hall).
  exists picked. auto.
Defined.

Lemma bots_fill_the_cut :
  Forall (fun c => is_user c = false) (take 30 (sorted_reverse bots_then_user)).
Proof. vm_compute. repeat constructor. Defined.

Lemma get_contributors_cut_before_type_witness :
  Forall (fun c => is_user c = false) (take 30 (sorted_reverse bots_then_user)) /\
  In (mkContributor 1 "User" "u/ada") bots_then_user /\
  get_contributors (fun _ => inr (bots_then_user, 200)) sample_requests_get
    (JNum 1) = Some [].
Proof.
  split; [exact bots_fill_the_cut|].
  split; [apply in_or_app; right; left; reflexivity|].
  apply (get_contributors_cut_before_type
           (fun _ => inr (bots_then_user, 200)) sample_requests_get (JNum 1)
           bots_then_user eq_refl bots_fill_the_cut).
Defined.

Lemma get_extra_metadata_outcomes_witness :
  gh_repository sample_outside "cern" "lib" = inr sample_file_contents /\
  config_item (config sample_outside) "GITHUB_METADATA_FILE"
    = inr (JStr ".zenodo.json") /\
  get_extra_metadata sample_outside "cern" "lib" "v1.0"
    = inl (CustomGitHubMetadataError (JStr ".zenodo.json")).
Proof.
  split; [reflexivity|]. split; [reflexivity|].
  destruct (get_extra_metadata_outcomes sample_outside "cern" "lib" "v1.0"
              sample_file_contents (JStr ".zenodo.json") eq_refl eq_refl)
    as (_ & Hbad & _).
  apply (Hbad [Byte.x7b] "Expecting property name" eq_refl).
  right. exists "{". split; reflexivity.
Defined.

Lemma citation_errors_recorded_witness :
  citation_schema sample_outside <> None /\
  exists data d,
    get_citation_metadata sample_outside "cern" "lib" "v1.0"
      (Some [("metadata", JStr "bad license")])
      = (inr data, Some d) /\
    dict_find "metadata" d = Some (JStr "bad license") /\
    dict_find "CITATION.cff" d
      = Some (JObj [("title", JStr "['Missing data for required field.']")]).
Proof.
  split; [discriminate|].
  destruct (citation_errors_recorded sample_outside "cern" "lib" "v1.0"
              (Some [("metadata", JStr "bad license")])
              sample_file_contents (JStr "CITATION.cff") [Byte.x7b] "{"
              (JObj [("cff-version", JStr "1.2.0")])
              (fun d => inr (d, [("title",
                                  JArr [JStr "Missing data for required field."])]))
              (JObj [("cff-version", JStr "1.2.0")])
              [("title", JArr [JStr "Missing data for required field."])]
              eq_refl eq_refl eq_refl eq_refl eq_refl eq_refl eq_refl)
    as (errs & Hrun & _ & Hrec).
  destruct (Hrec ltac:(discriminate)) as (d & -> & Hcff & Hrest).
  exists (JObj [("cff-version", JStr "1.2.0")]), d.
  split; [exact Hrun|]. split; [|exact Hcff].
  rewrite (Hrest "metadata"); [reflexivity | discriminate].
Defined.
